(** * zap-desktop renderer: the [info] and [invoice] selectors and the
      amount shown by [RequestSummary]

    A shallow embedding of

    - [src/renderer/reducers/info/selectors.js],
    - [src/renderer/reducers/invoice/selectors.js],
    - the amount computed in [src/renderer/components/Request/RequestSummary.js],

    over a small model of JavaScript values.  The redux state is a JavaScript
    value; a selector either returns a value or throws.  The selectors built
    with reselect's [createSelector] keep a memo cell each; the cells are
    modelled as a shared store so that the independence of a selector's answer
    from earlier calls is a theorem and not an artefact of the embedding. *)

From Stdlib Require Import ZArith Ascii String DecimalString.
From stdpp Require Import gmap strings list.

Set Warnings "-register-all".
Local Open Scope string_scope.

(** ** JavaScript values *)

(** Numbers.  The store holds counts and satoshi amounts: integers and [NaN]
    are represented, fractions and the sign of zero are not (no operation of
    these modules tells [+0] from [-0]). *)
Inductive number :=
| NaN
| Int (z : Z).

(** Values of the store: the JSON-like data the reducers put there.  Objects
    are finite maps from property names to values, arrays are dense lists.
    Functions are not values of the store, so a property read can only find
    data (inherited methods are dealt with where the source calls them). *)
Inductive val :=
| VUndef
| VNull
| VBool (b : bool)
| VNum (n : number)
| VStr (s : string)
| VArr (elems : list val)
| VObj (fields : gmap string val).

(** What a JavaScript computation can throw. *)
Inductive error :=
| TypeError
| Error (name : string).

(** A call either returns or throws. *)
Inductive result (A : Type) :=
| Ok (a : A)
| Throw (e : error).
Arguments Ok {A} a.
Arguments Throw {A} e.

#[global] Instance result_ret : MRet result := @Ok.
#[global] Instance result_bind : MBind result :=
  λ A B f m, match m with Ok a => f a | Throw e => Throw e end.
#[global] Instance result_fmap : FMap result :=
  λ A B f m, match m with Ok a => Ok (f a) | Throw e => Throw e end.

Definition throws {A} (r : result A) : Prop := ∃ e, r = Throw e.

(** [mapM]: run [f] on the elements from left to right, stop at the first
    throw. *)
Fixpoint result_map {A B} (f : A → result B) (l : list A) : result (list B) :=
  match l with
  | [] => Ok []
  | x :: l' => y ← f x; ys ← result_map f l'; Ok (y :: ys)
  end.

(** ** Primitive operations of the language *)

(** [ToBoolean]. *)
Definition truthy (v : val) : bool :=
  match v with
  | VUndef | VNull => false
  | VBool b => b
  | VNum NaN => false
  | VNum (Int z) => negb (z =? 0)%Z
  | VStr s => negb (String.eqb s "")
  | VArr _ | VObj _ => true
  end.

(** [v == null]: [undefined] or [null]. *)
Definition is_nullish (v : val) : bool :=
  match v with
  | VUndef | VNull => true
  | _ => false
  end.

(** [a || b], with [b] already evaluated (used where [b] cannot throw). *)
Definition js_or (a b : val) : val := if truthy a then a else b.

Definition nat_to_string (n : nat) : string :=
  NilZero.string_of_uint (Nat.to_uint n).

(** [Number::toString]: decimal digits, as JavaScript prints the integers
    it holds exactly (below 1e21, where it changes to exponent form). *)
Definition number_to_string (n : number) : string :=
  match n with
  | NaN => "NaN"
  | Int z => NilZero.string_of_int (Z.to_int z)
  end.

Fixpoint join (sep : string) (l : list string) : string :=
  match l with
  | [] => ""
  | [s] => s
  | s :: l' => s +:+ sep +:+ join sep l'
  end.

(** [ToString], as applied by template literals and by computed property
    names.  An array prints as its elements joined by commas, with [null] and
    [undefined] elements printed as the empty string. *)
Fixpoint to_string (v : val) : string :=
  match v with
  | VUndef => "undefined"
  | VNull => "null"
  | VBool true => "true"
  | VBool false => "false"
  | VNum n => number_to_string n
  | VStr s => s
  | VArr l =>
      join "," ((fix elements (l : list val) : list string :=
                   match l with
                   | [] => []
                   | x :: l' =>
                       (if is_nullish x then "" else to_string x) :: elements l'
                   end) l)
  | VObj _ => "[object Object]"
  end.

(** An array index written as a property name: ["0"], or digits that do not
    start with [0]. *)
Fixpoint digits_value (s : string) (acc : nat) : option nat :=
  match s with
  | EmptyString => Some acc
  | String c s' =>
      let n := nat_of_ascii c in
      if ((48 <=? n) && (n <=? 57))%nat then digits_value s' (10 * acc + (n - 48))%nat
      else None
  end.

Definition array_index (key : string) : option nat :=
  match key with
  | EmptyString => None
  | String "0" EmptyString => Some 0
  | String "0" _ => None
  | _ => digits_value key 0
  end.

Fixpoint string_chars (s : string) : list string :=
  match s with
  | EmptyString => []
  | String c s' => String c EmptyString :: string_chars s'
  end.

(** [object[key]] on a value that is neither [null] nor [undefined]: own data
    properties of objects, elements and [length] of arrays and strings;
    anything else reads as [undefined].  Members inherited from the built-in
    prototypes ([constructor], [toString], ...) are functions, not data, and
    are left out: where a key is computed from the state, the properties
    below read it as a property of the object's own. *)
Definition get_prop (object : val) (key : string) : val :=
  match object with
  | VObj fields => default VUndef (fields !! key)
  | VArr elems =>
      if String.eqb key "length" then VNum (Int (Z.of_nat (length elems)))
      else match array_index key with
           | Some i => default VUndef (elems !! i)
           | None => VUndef
           end
  | VStr s =>
      if String.eqb key "length" then VNum (Int (Z.of_nat (String.length s)))
      else match array_index key with
           | Some i => default VUndef (VStr <$> (string_chars s !! i))
           | None => VUndef
           end
  | _ => VUndef
  end.

(** [object.key] and [object[key]] as expressions: reading a property of
    [null] or [undefined] throws a [TypeError]. *)
Definition member (object : val) (key : string) : result val :=
  if is_nullish object then Throw TypeError else Ok (get_prop object key).

(** [key in Object(object)], for own data properties. *)
Definition has_property (object : val) (key : string) : bool :=
  match object with
  | VObj fields => bool_decide (is_Some (fields !! key))
  | VArr elems =>
      String.eqb key "length" ||
      match array_index key with Some i => (i <? length elems)%nat | None => false end
  | VStr s =>
      String.eqb key "length" ||
      match array_index key with Some i => (i <? String.length s)%nat | None => false end
  | _ => false
  end.

(** The properties copied by [{...object}]. *)
Fixpoint indexed (i : nat) (l : list val) : list (string * val) :=
  match l with
  | [] => []
  | x :: l' => (nat_to_string i, x) :: indexed (S i) l'
  end.

Definition spread (object : val) : gmap string val :=
  match object with
  | VObj fields => fields
  | VArr elems => list_to_map (indexed 0 elems)
  | VStr s => list_to_map (indexed 0 (VStr <$> string_chars s))
  | _ => ∅
  end.

(** ** Strings *)

(** [s.split(c)] for a separator of one character: the fields between the
    occurrences of [c]; never empty. *)
Fixpoint split (c : ascii) (s : string) : list string :=
  match s with
  | EmptyString => [""]
  | String a s' =>
      if Ascii.eqb a c then "" :: split c s'
      else match split c s' with
           | [] => [String a ""]
           | field :: fields => String a field :: fields
           end
  end.

(** The text before the first [c], and the text after it if there is one. *)
Fixpoint cut (c : ascii) (s : string) : string * option string :=
  match s with
  | EmptyString => ("", None)
  | String a s' =>
      if Ascii.eqb a c then ("", Some s')
      else let '(before, after) := cut c s' in (String a before, after)
  end.

Definition substring_before (c : ascii) (s : string) : string := (cut c s).1.
Definition substring_after (c : ascii) (s : string) : option string := (cut c s).2.

Fixpoint drop_chars (n : nat) (s : string) : string :=
  match n, s with
  | S n', String _ s' => drop_chars n' s'
  | _, _ => s
  end.

(** [s.replace(pattern, replacement)] for a string pattern and a replacement
    without [$]: the first occurrence of the pattern is replaced. *)
Fixpoint replace (pattern replacement s : string) : string :=
  if String.prefix pattern s then
    replacement +:+ drop_chars (String.length pattern) s
  else match s with
       | EmptyString => ""
       | String a s' => String a (replace pattern replacement s')
       end.

(** The method calls of the source.  Only strings have [split] and
    [replace]; calling them on anything else is a [TypeError] (reading a
    property of [undefined], or calling what is not a function). *)
Definition method_split (v : val) (separator : ascii) : result val :=
  match v with
  | VStr s => Ok (VArr (VStr <$> split separator s))
  | _ => Throw TypeError
  end.

Definition method_replace (v : val) (pattern replacement : string) : result val :=
  match v with
  | VStr s => Ok (VStr (replace pattern replacement s))
  | _ => Throw TypeError
  end.

(** [array.map(f)]: only arrays have [map]. *)
Definition method_map (v : val) (f : val → result val) : result val :=
  match v with
  | VArr elems => VArr <$> result_map f elems
  | _ => Throw TypeError
  end.

(** [array.find(p)]: the first element on which [p] holds, [undefined] when
    there is none; elements after the first hit are not visited. *)
Fixpoint find_first (p : val → result bool) (l : list val) : result val :=
  match l with
  | [] => Ok VUndef
  | x :: l' => b ← p x; if b : bool then Ok x else find_first p l'
  end.

Definition method_find (v : val) (p : val → result bool) : result val :=
  match v with
  | VArr elems => find_first p elems
  | _ => Throw TypeError
  end.

(** ** lodash [get] *)

Fixpoint contains_char (c : ascii) (s : string) : bool :=
  match s with
  | EmptyString => false
  | String a s' => Ascii.eqb a c || contains_char c s'
  end.

(** [isKey]: a path without a dot is one property name, and so is a path
    that names a property of the object as it stands. *)
Definition isKey (path : string) (object : val) : bool :=
  negb (contains_char "." path) || has_property object path.

(** [stringToPath], for the paths of these modules: property names separated
    by dots (lodash's bracket syntax is not used here and not modelled; where
    a path is built from the state, the properties below take names without
    brackets, see [plain_name]). *)
Definition stringToPath (path : string) : list string := split "." path.

Definition castPath (path : string) (object : val) : list string :=
  if isKey path object then [path] else stringToPath path.

(** [baseGet]: follow the path while the value at hand is neither [null] nor
    [undefined]; a path cut short yields [undefined]. *)
Fixpoint baseGet (object : val) (path : list string) : val :=
  match path with
  | [] => object
  | key :: path' =>
      if is_nullish object then VUndef else baseGet (get_prop object key) path'
  end.

(** [get(object, path, defaultValue)]; the default stands in for
    [undefined] only. *)
Definition get (object : val) (path : string) (defaultValue : val) : val :=
  let result :=
    if is_nullish object then VUndef
    else baseGet object (castPath path object) in
  match result with
  | VUndef => defaultValue
  | _ => result
  end.

(** ** What the modules import *)

(** The sources call into packages and modules that are not part of them.
    They are taken as they are used, as functions that return or throw:

    - [semver_gte v threshold] is [semver.gte(v, threshold, { includePrerelease: true })];
    - [currentConfig] is [settingsSelectors.currentConfig] of [reducers/settings];
    - [decorateInvoice] is the function of that name of
      [reducers/invoice/utils]; [Array.prototype.map] hands it the element, the
      index and the array, and it is taken to look at the element only;
    - [decodePayReq] is the function of that name of [@zap/utils/crypto];
    - [same_object a b] tells whether two objects (or arrays) are one and the
      same object of the heap, which is what [===] compares on objects. *)
Class Environment := {
  same_object : val → val → bool;
  semver_gte : val → string → result bool;
  currentConfig : val → result val;
  decorateInvoice : val → result val;
  decodePayReq : val → result val;
}.

(** Redux never updates an object of the store in place: one object, one
    content. *)
Definition immutable_heap `{Environment} : Prop :=
  ∀ a b, same_object a b = true → a = b.

(** [a === b]. *)
Definition strict_eq `{Environment} (a b : val) : bool :=
  match a, b with
  | VUndef, VUndef => true
  | VNull, VNull => true
  | VBool x, VBool y => Bool.eqb x y
  | VNum (Int x), VNum (Int y) => (x =? y)%Z
  | VStr x, VStr y => String.eqb x y
  | VArr _, VArr _ => same_object a b
  | VObj _, VObj _ => same_object a b
  | _, _ => false
  end.

(** ** reselect *)

Module Reselect.

(** A selector is a plain function of the state, or the product of
    [createSelector(...dependencies, resultFunc)].  Each call of
    [createSelector] allocates the two memos of the new selector; [cell] names
    that allocation. *)
Inductive selector :=
| Input (f : val → result val)
| createSelector (cell : nat) (dependencies : list selector)
                 (resultFunc : list val → result val).

(** The n-th argument of a call; a missing argument is [undefined]. *)
Definition arg (n : nat) (args : list val) : val := default VUndef (args !! n).

(** *** What a selector computes

    The dependencies are applied to the state from left to right and the
    result function to what they return.  That a call, memos and all,
    returns just this is [run_correct] below. *)
Fixpoint select (s : selector) (state : val) : result val :=
  match s with
  | Input f => f state
  | createSelector _ dependencies resultFunc =>
      params ← result_map (λ dependency, select dependency state) dependencies;
      resultFunc params
  end.

(** *** How it computes it: [defaultMemoize]

    A memo remembers the arguments and the result of the last call that
    returned. *)
Record memo := { lastArgs : option (list val); lastResult : val }.

Definition fresh_memo : memo := {| lastArgs := None; lastResult := VNull |}.

(** The two memos of a selector: one around the selector itself (keyed on
    the state), one around its result function (keyed on what the
    dependencies returned). *)
Record cell_memos := { selector_memo : memo; resultFunc_memo : memo }.

Definition fresh_cell : cell_memos :=
  {| selector_memo := fresh_memo; resultFunc_memo := fresh_memo |}.

(** The memos of all selectors created so far. *)
Abbreviation store := (gmap nat cell_memos).

Definition cell_at (σ : store) (cell : nat) : cell_memos :=
  default fresh_cell (σ !! cell).

Definition write_selector_memo (cell : nat) (m : memo) (σ : store) : store :=
  <[cell := {| selector_memo := m;
               resultFunc_memo := resultFunc_memo (cell_at σ cell) |}]> σ.

Definition write_resultFunc_memo (cell : nat) (m : memo) (σ : store) : store :=
  <[cell := {| selector_memo := selector_memo (cell_at σ cell);
               resultFunc_memo := m |}]> σ.

(** Computations that read and write the memos and may throw. *)
Definition M (A : Type) : Type := store → store * result A.

#[global] Instance M_ret : MRet M := λ A a σ, (σ, Ok a).
#[global] Instance M_bind : MBind M := λ A B f m σ,
  match m σ with
  | (σ', Ok a) => f a σ'
  | (σ', Throw e) => (σ', Throw e)
  end.

Definition lift {A} (r : result A) : M A := λ σ, (σ, r).

Fixpoint M_map {A B} (f : A → M B) (l : list A) : M (list B) :=
  match l with
  | [] => mret []
  | x :: l' => y ← f x; ys ← M_map f l'; mret (y :: ys)
  end.

Section Memoize.
Context `{Environment}.

Fixpoint all_strict_eq (prev next : list val) : bool :=
  match prev, next with
  | [], [] => true
  | a :: prev', b :: next' => strict_eq a b && all_strict_eq prev' next'
  | _, _ => false
  end.

Definition areArgumentsShallowlyEqual
    (prev : option (list val)) (next : list val) : bool :=
  match prev with
  | None => false
  | Some prev => all_strict_eq prev next
  end.

(** [defaultMemoize(func)] applied to [args]: when the arguments are those
    of the last call the remembered result is returned; otherwise [func]
    runs, and if it returns, its result is remembered.  A throw leaves the
    memo as it was. *)
Definition defaultMemoize
    (read : store → memo) (write : memo → store → store)
    (func : list val → M val) (args : list val) : M val :=
  λ σ,
    if areArgumentsShallowlyEqual (lastArgs (read σ)) args then
      let r := lastResult (read σ) in
      (write {| lastArgs := Some args; lastResult := r |} σ, Ok r)
    else
      match func args σ with
      | (σ', Ok r) => (write {| lastArgs := Some args; lastResult := r |} σ', Ok r)
      | (σ', Throw e) => (σ', Throw e)
      end.

(** A call [s(state)] of a selector, with its effect on the memos. *)
Fixpoint run (s : selector) (state : val) : M val :=
  match s with
  | Input f => lift (f state)
  | createSelector cell dependencies resultFunc =>
      defaultMemoize
        (λ σ, selector_memo (cell_at σ cell)) (write_selector_memo cell)
        (λ _,
           params ← M_map (λ dependency, run dependency state) dependencies;
           defaultMemoize
             (λ σ, resultFunc_memo (cell_at σ cell)) (write_resultFunc_memo cell)
             (λ ps, lift (resultFunc ps)) params)
        [state]
  end.

(** A sequence of calls, from the oldest to the newest, and the store it
    leaves. *)
Fixpoint replay (calls : list (selector * val)) (σ : store) : store :=
  match calls with
  | [] => σ
  | (s, state) :: calls' => replay calls' (fst (run s state σ))
  end.

End Memoize.

End Reselect.

Import Reselect.

(** ** [renderer/reducers/info/selectors.js] *)

Module Info.

Section Selectors.
Context `{Environment}.

(** [chainSelector] - Current active chain. *)
Definition chainSelector (state : val) : result val :=
  info ← member state "info"; member info "chain".

(** [chainsSelector] - List of supported chain. *)
Definition chainsSelector (state : val) : result val :=
  info ← member state "info"; member info "chains".

(** [networkSelector] - Current active chain. *)
Definition networkSelector (state : val) : result val :=
  info ← member state "info"; member info "network".

(** [networksSelector] - List of supported networks. *)
Definition networksSelector (state : val) : result val :=
  info ← member state "info"; member info "networks".

(** [infoLoading] - Info loading state. *)
Definition infoLoading (state : val) : result val :=
  info ← member state "info"; member info "infoLoading".

(** [infoLoaded] - Info loaded state. *)
Definition infoLoaded (state : val) : result val :=
  info ← member state "info"; member info "infoLoaded".

(** [hasSynced] - Node has synced state. *)
Definition hasSynced (state : val) : result val :=
  info ← member state "info"; member info "hasSynced".

(** [isSyncedToChain] - Node sync state. *)
Definition isSyncedToChain (state : val) : result val :=
  Ok (get state "info.data.syncedToChain" (VBool false)).

(** [version] - Node version. *)
Definition version (state : val) : result val :=
  Ok (get state "info.data.version" VUndef).

(** [identityPubkey] - Node pubkey. *)
Definition identityPubkey (state : val) : result val :=
  Ok (get state "info.data.identity_pubkey" VUndef).

(** [nodeUris] - Node urls. *)
Definition nodeUris (state : val) : result val :=
  Ok (get state "info.data.uris" VUndef).

(** [grpcProtoVersion] - Grpc proto version used when connecting to the
    node. *)
Definition grpcProtoVersion (state : val) : result val :=
  Ok (get state "info.data.grpcProtoVersion" VUndef).

(** [versionString] - Version string (excluding commit hash):
    [v => v && v.split(' ')[0]]. *)
Definition versionString : selector :=
  createSelector 0 [Input version] (λ args,
    let v := arg 0 args in
    if truthy v then
      fields ← method_split v " "; member fields "0"
    else Ok v).

(** [commitString] - Extract the commit string from the version. *)
Definition commitString : selector :=
  createSelector 1 [Input version] (λ args,
    let v := arg 0 args in
    if negb (truthy v) then Ok VUndef
    else
      fields ← method_split v " ";
      c ← member fields "1";
      if truthy c then method_replace c "commit=" "" else Ok VUndef).

(** [hasRouterSupport] - Check whether node has support for Router
    service. *)
Definition hasRouterSupport : selector :=
  createSelector 2 [Input grpcProtoVersion] (λ args,
    let v := arg 0 args in
    if negb (truthy v) then Ok (VBool false)
    else VBool <$> semver_gte v "0.7.1-beta").

(** [hasSendPaymentV2Support] - Check whether node has support for
    SendPaymentV2 service. *)
Definition hasSendPaymentV2Support : selector :=
  createSelector 3 [Input grpcProtoVersion] (λ args,
    let v := arg 0 args in
    if negb (truthy v) then Ok (VBool false)
    else VBool <$> semver_gte v "0.10.0-beta").

(** [hasMppSupport] - Check whether node has support for MPP. *)
Definition hasMppSupport : selector :=
  createSelector 4 [Input grpcProtoVersion] (λ args,
    let v := arg 0 args in
    if negb (truthy v) then Ok (VBool false)
    else VBool <$> semver_gte v "0.10.0-beta").

(** [nodePubkey] - Get the node pubkey. If not set, try to extract it from
    the node uri. *)
Definition nodePubkey : selector :=
  createSelector 5 [Input nodeUris; Input identityPubkey] (λ args,
    let n := arg 0 args in
    let pk := arg 1 args in
    let parseFromDataUri (_ : unit) : result val :=
      if truthy n then
        uri ← member n "0"; fields ← method_split uri "@"; member fields "0"
      else Ok n in
    if truthy pk then Ok pk else parseFromDataUri ()).

(** [nodeUrisOrPubkey] - Get the node uri or pubkey. *)
Definition nodeUrisOrPubkey : selector :=
  createSelector 6 [Input nodeUris; nodePubkey] (λ args,
    let uris := arg 0 args in
    let pk := arg 1 args in
    Ok (js_or uris (VArr [pk]))).

(** [networkInfo] - Node network info. *)
Definition networkInfo : selector :=
  createSelector 7
    [Input chainSelector; Input networkSelector; Input networksSelector;
     Input currentConfig]
    (λ args,
       let chain := arg 0 args in
       let network := arg 1 args in
       let networks := arg 2 args in
       let currentConfig := arg 3 args in
       let info :=
         get networks (to_string chain +:+ "." +:+ to_string network) (VObj ∅) in
       explorerUrls ← member info "explorerUrls";
       blockExplorer ← member currentConfig "blockExplorer";
       explorerUrl ← member explorerUrls (to_string blockExplorer);
       Ok (VObj (<["explorerUrl" := explorerUrl]> (spread info)))).

(** [chainName] - Current chain name. *)
Definition chainName : selector :=
  createSelector 8 [Input chainSelector; Input chainsSelector] (λ args,
    let chain := arg 0 args in
    let chains := arg 1 args in
    Ok (get chains (to_string chain +:+ ".name") VNull)).

(** The default export. *)
Definition exports : list (string * selector) :=
  [ ("chainSelector", Input chainSelector);
    ("chainsSelector", Input chainsSelector);
    ("networkSelector", Input networkSelector);
    ("networksSelector", Input networksSelector);
    ("infoLoading", Input infoLoading);
    ("infoLoaded", Input infoLoaded);
    ("hasSynced", Input hasSynced);
    ("isSyncedToChain", Input isSyncedToChain);
    ("version", Input version);
    ("identityPubkey", Input identityPubkey);
    ("nodeUris", Input nodeUris);
    ("grpcProtoVersion", Input grpcProtoVersion);
    ("versionString", versionString);
    ("commitString", commitString);
    ("hasRouterSupport", hasRouterSupport);
    ("hasSendPaymentV2Support", hasSendPaymentV2Support);
    ("hasMppSupport", hasMppSupport);
    ("nodePubkey", nodePubkey);
    ("nodeUrisOrPubkey", nodeUrisOrPubkey);
    ("networkInfo", networkInfo);
    ("chainName", chainName) ].

End Selectors.

End Info.

(** ** [renderer/reducers/invoice/selectors.js] *)

Module Invoice.

Section Selectors.
Context `{Environment}.

(** [invoicesSelector] - List of invoices. *)
Definition invoicesSelector (state : val) : result val :=
  invoice ← member state "invoice"; member invoice "invoices".

(** [invoiceSelector] - Currently selected invoice. *)
Definition invoiceSelector (state : val) : result val :=
  invoice ← member state "invoice"; member invoice "invoice".

(** [invoices] - List of decorated invoices. *)
Definition invoices : selector :=
  createSelector 9 [Input invoicesSelector] (λ args,
    let item := arg 0 args in
    method_map item decorateInvoice).

(** [invoice] - Currently selected invoice. *)
Definition invoice : selector :=
  createSelector 10 [invoices; Input invoiceSelector] (λ args,
    let allInvoices := arg 0 args in
    let paymentRequest := arg 1 args in
    method_find allInvoices (λ item,
      itemRequest ← member item "paymentRequest";
      Ok (strict_eq itemRequest paymentRequest))).

(** The exports. *)
Definition exports : list (string * selector) :=
  [ ("invoice", invoice); ("invoices", invoices) ].

End Selectors.

End Invoice.

(** ** [renderer/components/Request/RequestSummary.js] *)

Module RequestSummary.

Section Component.
Context `{Environment}.

(** [useMemo(() => (payReq ? decodePayReq(payReq) : {}), [payReq])]. *)
Definition decodedInvoice (payReq : val) : result val :=
  if truthy payReq then decodePayReq payReq else Ok (VObj ∅).

(** The amount handed to [CryptoValue] and [FiatValue], from the props
    [invoice] (which defaults to [{}] when it is [undefined]) and [payReq].
    Before line 32 computes it, line 16 reads [decodedInvoice.timeExpireDate]
    and line 31 destructures [decodedInvoice]. *)
Definition satoshis (invoice payReq : val) : result val :=
  let invoice := match invoice with VUndef => VObj ∅ | _ => invoice end in
  decoded ← decodedInvoice payReq;
  _ ← member decoded "timeExpireDate";
  invoiceAmount ← member decoded "satoshis";
  finalAmount ← member invoice "finalAmount";
  Ok (js_or (js_or finalAmount invoiceAmount) (VNum (Int 0))).

End Component.

End RequestSummary.

(** ** The program and the invariant of its memos *)

Section Program.
Context `{Environment}.

(** Every selector the two modules export. *)
Definition exported : list (string * selector) := Info.exports ++ Invoice.exports.

(** The selector created at a cell, among those of a list. *)
Definition is_cell (cell : nat) (s : selector) : bool :=
  match s with
  | Input _ => false
  | createSelector cell' _ _ => (cell' =? cell)%nat
  end.

Definition created_at (prog : list selector) (cell : nat) : option selector :=
  find (is_cell cell) prog.

(** A selector is linked in a program when it and the selectors it depends
    on are the ones the program has at their cells: no two calls of
    [createSelector] share their memos. *)
Inductive linked (prog : list selector) : selector → Prop :=
| linked_Input f : linked prog (Input f)
| linked_createSelector cell dependencies resultFunc :
    created_at prog cell = Some (createSelector cell dependencies resultFunc) →
    Forall (linked prog) dependencies →
    linked prog (createSelector cell dependencies resultFunc).

(** What a memo remembers is an argument list and the result of [func] on
    it. *)
Definition memo_ok (func : list val → result val) (m : memo) : Prop :=
  ∀ args, lastArgs m = Some args → func args = Ok (lastResult m).

Definition cell_ok (s : selector) (c : cell_memos) : Prop :=
  match s with
  | Input _ => True
  | createSelector _ _ resultFunc =>
      (∀ state, lastArgs (selector_memo c) = Some [state] →
                select s state = Ok (lastResult (selector_memo c))) ∧
      memo_ok resultFunc (resultFunc_memo c)
  end.

(** The invariant of the store: every cell of the program remembers results
    of its own selector. *)
Definition consistent (prog : list selector) (σ : store) : Prop :=
  ∀ cell s, created_at prog cell = Some s → cell_ok s (cell_at σ cell).

(** The calls a client of the modules can make: exported selectors applied
    to states. *)
Definition client_calls (calls : list (selector * val)) : Prop :=
  Forall (λ call, call.1 ∈ exported.*2) calls.

End Program.

(** ** A reference environment

    The properties below hold for every environment.  To run the selectors
    on concrete states the examples use this one. *)

(** Version comparison by the precedence rules of Semantic Versioning 2.0.0,
    on strings of the form [MAJOR.MINOR.PATCH[-PRERELEASE][+BUILD]] with an
    optional leading [v] (no surrounding blanks, numbers of any size). *)
Module Semver.

Inductive identifier :=
| Numeric (n : N)
| Alphanumeric (s : string).

Record version := {
  major : N;
  minor : N;
  patch : N;
  prerelease : list identifier;
}.

Definition is_digit (c : ascii) : bool :=
  let n := nat_of_ascii c in ((48 <=? n) && (n <=? 57))%nat.

Definition is_identifier_char (c : ascii) : bool :=
  let n := nat_of_ascii c in
  (is_digit c || ((65 <=? n) && (n <=? 90)) || ((97 <=? n) && (n <=? 122))
   || (n =? 45))%nat.

Fixpoint all_chars (p : ascii → bool) (s : string) : bool :=
  match s with
  | EmptyString => true
  | String c s' => p c && all_chars p s'
  end.

Fixpoint digits_to_N (s : string) (acc : N) : N :=
  match s with
  | EmptyString => acc
  | String c s' => digits_to_N s' (10 * acc + (N_of_ascii c - 48))%N
  end.

(** [0], or digits that do not start with [0]. *)
Definition parse_numeric (s : string) : option N :=
  match s with
  | EmptyString => None
  | String "0" EmptyString => Some 0%N
  | String "0" _ => None
  | _ => if all_chars is_digit s then Some (digits_to_N s 0) else None
  end.

Definition parse_identifier (s : string) : option identifier :=
  match s with
  | EmptyString => None
  | _ =>
      if all_chars is_digit s then Numeric <$> parse_numeric s
      else if all_chars is_identifier_char s then Some (Alphanumeric s)
      else None
  end.

Definition valid_build_identifier (s : string) : bool :=
  negb (String.eqb s "") && all_chars is_identifier_char s.

Definition parse (s : string) : option version :=
  let s := match s with String "v" s' => s' | _ => s end in
  let '(s, build) := cut "+" s in
  let '(main, pre) := cut "-" s in
  build_ok ← match build with
             | None => Some ()
             | Some b => if forallb valid_build_identifier (split "." b)
                         then Some () else None
             end;
  ids ← match pre with
        | None => Some []
        | Some p => mapM parse_identifier (split "." p)
        end;
  match split "." main with
  | [a; b; c] =>
      a ← parse_numeric a; b ← parse_numeric b; c ← parse_numeric c;
      Some {| major := a; minor := b; patch := c; prerelease := ids |}
  | _ => None
  end.

Definition compare_identifier (a b : identifier) : comparison :=
  match a, b with
  | Numeric x, Numeric y => (x ?= y)%N
  | Numeric _, Alphanumeric _ => Lt
  | Alphanumeric _, Numeric _ => Gt
  | Alphanumeric x, Alphanumeric y => String.compare x y
  end.

Fixpoint compare_identifiers (a b : list identifier) : comparison :=
  match a, b with
  | [], [] => Eq
  | [], _ :: _ => Lt
  | _ :: _, [] => Gt
  | x :: a', y :: b' =>
      match compare_identifier x y with
      | Eq => compare_identifiers a' b'
      | c => c
      end
  end.

(** A version without prerelease identifiers comes after the same version
    with some. *)
Definition compare_prerelease (a b : list identifier) : comparison :=
  match a, b with
  | [], [] => Eq
  | [], _ :: _ => Gt
  | _ :: _, [] => Lt
  | _, _ => compare_identifiers a b
  end.

Definition compare (a b : version) : comparison :=
  match (major a ?= major b)%N with
  | Eq =>
      match (minor a ?= minor b)%N with
      | Eq =>
          match (patch a ?= patch b)%N with
          | Eq => compare_prerelease (prerelease a) (prerelease b)
          | c => c
          end
      | c => c
      end
  | c => c
  end.

(** [gte(v, threshold)]: a version that does not parse is a [TypeError]. *)
Definition gte (v : val) (threshold : string) : result bool :=
  match v with
  | VStr s =>
      match parse s, parse threshold with
      | Some a, Some b =>
          Ok (match compare a b with Lt => false | _ => true end)
      | _, _ => Throw TypeError
      end
  | _ => Throw TypeError
  end.

End Semver.

(** In the reference environment no two objects are ever the same object
    (every comparison of objects by [===] fails), the settings are a fixed
    configuration, an invoice is decorated with its [type], and a payment
    request decodes to an amount of 1000 satoshis. *)
Definition reference_environment : Environment := {|
  same_object := λ _ _, false;
  semver_gte := Semver.gte;
  currentConfig := λ _, Ok (VObj {[ "blockExplorer" := VStr "blockstream" ]});
  decorateInvoice := λ invoice,
    if is_nullish invoice then Throw TypeError
    else Ok (VObj (<["type" := VStr "invoice"]> (spread invoice)));
  decodePayReq := λ _, Ok (VObj {[ "satoshis" := VNum (Int 1000) ]});
|}.

(** An environment in which every two objects are one and the same: what a
    store updated in place looks like to [===]. *)
Definition aliasing_environment : Environment := {|
  same_object := λ _ _, true;
  semver_gte := Semver.gte;
  currentConfig := currentConfig (Environment := reference_environment);
  decorateInvoice := decorateInvoice (Environment := reference_environment);
  decodePayReq := decodePayReq (Environment := reference_environment);
|}.

(** Object literals for the examples. *)
Definition object (fields : list (string * val)) : val := VObj (list_to_map fields).

(** ** The specification's reading of the version string

    The specification speaks of whitespace-separated tokens and of a leading
    [commit=] prefix.  These definitions follow its words; they are compared
    with the selectors below. *)
Module Spec.

Definition is_whitespace (c : ascii) : bool :=
  let n := nat_of_ascii c in
  ((n =? 32) || ((9 <=? n) && (n <=? 13)))%nat.

(** The maximal runs of characters that are not whitespace. *)
Fixpoint tokens (s : string) : list string :=
  match s with
  | EmptyString => []
  | String a s' =>
      if is_whitespace a then tokens s'
      else match s' with
           | EmptyString => [String a ""]
           | String b _ =>
               if is_whitespace b then String a "" :: tokens s'
               else match tokens s' with
                    | [] => [String a ""]
                    | token :: rest => String a token :: rest
                    end
           end
  end.

Definition remove_leading (prefix s : string) : string :=
  if String.prefix prefix s then drop_chars (String.length prefix) s else s.

(** "The first whitespace-separated token of the node version string
    (undefined when the version is absent)". *)
Definition versionString (version : val) : val :=
  match version with
  | VStr s => default VUndef (VStr <$> tokens s !! 0)
  | _ => VUndef
  end.

(** "Undefined when the version is absent or has no second token, and
    otherwise the second token with a leading 'commit=' prefix removed". *)
Definition commitString (version : val) : val :=
  match version with
  | VStr s => default VUndef (VStr ∘ remove_leading "commit=" <$> tokens s !! 1)
  | _ => VUndef
  end.

End Spec.

(** ** Example states *)

Module Examples.

(** A node that reports its versions and one uri but no identity pubkey, on
    bitcoin mainnet. *)
Definition node_state (grpcProtoVersion : string) : val :=
  object
    [("info", object
        [("chain", VStr "bitcoin");
         ("network", VStr "mainnet");
         ("networks", object
            [("bitcoin", object
                [("mainnet", object
                    [("explorerUrls", object
                        [("blockstream", VStr "https://blockstream.info")])])])]);
         ("data", object
            [("version", VStr "0.9.0-beta commit=v0.9.0-beta");
             ("grpcProtoVersion", VStr grpcProtoVersion);
             ("uris", VArr [VStr "02abc@1.2.3.4:9735"])])])].

(** A store that holds nothing yet. *)
Definition empty_state : val := object [].

(** A state that holds only a node version. *)
Definition version_state (version : val) : val :=
  object [("info", object [("data", object [("version", version)])])].

(** No identity pubkey, and an empty list of uris. *)
Definition no_uris_state : val :=
  object [("info", object [("data", object [("uris", VArr [])])])].

(** Networks that know bitcoin mainnet only, with another network, or none,
    current. *)
Definition known_networks : val :=
  object
    [("bitcoin", object
        [("mainnet", object
            [("explorerUrls", object
                [("blockstream", VStr "https://blockstream.info")])])])].

Definition other_network_state (chain network : val) : val :=
  object
    [("info", object
        [("chain", chain); ("network", network); ("networks", known_networks)])].

(** Two invoices, the second one selected. *)
Definition first_invoice : val := object [("paymentRequest", VStr "lnbc1")].
Definition second_invoice : val := object [("paymentRequest", VStr "lnbc2")].
Definition invoice_state : val :=
  object [("invoice", object [("invoice", VStr "lnbc2");
                              ("invoices", VArr [first_invoice; second_invoice])])].

Definition decorated (invoice : val) : val :=
  VObj (<["type" := VStr "invoice"]> (spread invoice)).

(** Calls made before the one under study. *)
Definition earlier_calls : list (selector * val) :=
  [ (Info.nodeUrisOrPubkey, no_uris_state);
    (Info.versionString, node_state "0.9.0-beta");
    (Info.networkInfo (H := reference_environment), node_state "0.7.1-beta") ].

(** A version string with a tab between version and commit. *)
Definition tabbed_version : string := "0.9.0-beta" +:+ String "009" "commit=abc".

End Examples.

(** An element of the decorated list is passed over by [find] when it is an
    object whose [paymentRequest] is not the selected one. *)
Definition passed_over `{Environment} (paymentRequest item : val) : Prop :=
  is_nullish item = false ∧
  strict_eq (get_prop item "paymentRequest") paymentRequest = false.

(** ** The rest of [RequestSummary.js] and the container of unnamed/part_000 *)

Module StatusRow.

(** The [invoice] prop as the component sees it: [invoice = {}] in the
    parameter list replaces [undefined] only. *)
Definition default_invoice (invoice : val) : val :=
  match invoice with VUndef => VObj ∅ | _ => invoice end.

(** [getStatusColor] (lines 38-43).  [isExpired] is the component's state: it
    starts as [false] and is only ever set to [true] or [false]. *)
Definition getStatusColor (invoice : val) (isExpired : bool) : result string :=
  isSettled ← member invoice "isSettled";
  if truthy isSettled then Ok "superGreen"
  else Ok (if isExpired then "superRed" else "primaryAccent").

(** What the status row (lines 128-163) shows: the paid text in a colour, or
    the countdown and the not-paid text, each in a colour. *)
Inductive status :=
| Paid (color : string)
| NotPaid (countdownColor textColor : string).

Definition statusRow (invoice : val) (isExpired : bool) : result status :=
  let invoice := default_invoice invoice in
  isSettled ← member invoice "isSettled";
  if truthy isSettled then
    color ← getStatusColor invoice isExpired; Ok (Paid color)
  else
    countdownColor ← getStatusColor invoice isExpired;
    textColor ← getStatusColor invoice isExpired;
    Ok (NotPaid countdownColor textColor).

End StatusRow.

(** [mapStateToProps] of the container that connects [PaySummaryLightning]
    (src/unnamed/part_000).  [tickerSelectors.cryptoUnitName] and
    [networkSelectors.nodes] are imported from reducers that are not part of
    the sources. *)
Module PaySummaryLightningContainer.

Section Container.
Context `{Environment}.
Variable cryptoUnitName : val → result val.
Variable nodes : val → result val.

Definition mapStateToProps (state : val) : result val :=
  unitName ← cryptoUnitName state;
  pay ← member state "pay";
  isQueryingRoutes ← member pay "isQueryingRoutes";
  nodeList ← nodes state;
  config ← currentConfig state;
  payments ← member config "payments";
  feeLimit ← member payments "feeLimit";
  Ok (VObj (<["feeLimit" := feeLimit]>
           (<["nodes" := nodeList]>
           (<["isQueryingRoutes" := isQueryingRoutes]>
           (<["cryptoUnitName" := unitName]> ∅))))).

End Container.

End PaySummaryLightningContainer.

(** ** Vocabulary for the further properties *)

Definition is_string (v : val) : bool :=
  match v with VStr _ => true | _ => false end.

Definition is_array (v : val) : bool :=
  match v with VArr _ => true | _ => false end.

(** The selectors of [info] that read [state.info.<field>] directly, and
    those that read [info.data.<field>] through lodash [get] with a default. *)
Definition direct_selectors : list ((val → result val) * string) :=
  [ (Info.chainSelector, "chain"); (Info.chainsSelector, "chains");
    (Info.networkSelector, "network"); (Info.networksSelector, "networks");
    (Info.infoLoading, "infoLoading"); (Info.infoLoaded, "infoLoaded");
    (Info.hasSynced, "hasSynced") ].

Definition get_selectors : list ((val → result val) * string * val) :=
  [ (Info.isSyncedToChain, "syncedToChain", VBool false);
    (Info.version, "version", VUndef);
    (Info.identityPubkey, "identity_pubkey", VUndef);
    (Info.nodeUris, "uris", VUndef);
    (Info.grpcProtoVersion, "grpcProtoVersion", VUndef) ].

(** A property name that lodash takes as one segment of a path: no dot and
    no bracket in it. *)
Definition plain_name (s : string) : bool :=
  negb (contains_char "." s || contains_char "[" s || contains_char "]" s).

(** The three capability flags with their thresholds. *)
Definition capability_flags `{Environment} : list (selector * string) :=
  [ (Info.hasRouterSupport, "0.7.1-beta");
    (Info.hasSendPaymentV2Support, "0.10.0-beta");
    (Info.hasMppSupport, "0.10.0-beta") ].

(** ** More example states *)

Module MoreExamples.

(** The entry of bitcoin mainnet in the networks of [Examples.node_state]. *)
Definition mainnet_entry : gmap string val :=
  {[ "explorerUrls" := object [("blockstream", VStr "https://blockstream.info")] ]}.

(** The configuration of the reference environment. *)
Definition reference_config : val := VObj {[ "blockExplorer" := VStr "blockstream" ]}.




(** A state whose invoice slice has no list of invoices. *)
Definition no_invoices_state : val := object [("invoice", object [])].

(** A list of invoices with a [null] in second place, which the reference
    [decorateInvoice] cannot decorate. *)
Definition broken_invoices_state : val :=
  object [("invoice", object [("invoice", VStr "lnbc1");
                              ("invoices", VArr [Examples.first_invoice; VNull])])].

(** A state with a [pay] slice, and imported selectors for the container. *)
Definition pay_state : val :=
  object [("pay", object [("isQueryingRoutes", VBool false)])].

Definition cryptoUnitName (state : val) : result val := Ok (VStr "sats").
Definition nodes (state : val) : result val := Ok (VArr []).

End MoreExamples.

(** * Properties *)

(** ** Basic facts about the language model *)

Lemma member_ok object key :
  is_nullish object = false → member object key = Ok (get_prop object key).
Proof. unfold member. by intros ->. Qed.

(** ** reselect: a selector returns what it computes, whatever it remembers *)

Section Memo_correct.
Context `{Environment}.
Hypothesis heap : immutable_heap.

Lemma strict_eq_sound a b : strict_eq a b = true → a = b.
Proof using heap.
  destruct a as [| |x|[|x]|x|x|x], b as [| |y|[|y]|y|y|y]; simpl; try done.
  - by intros ->%Bool.eqb_prop.
  - by intros ->%Z.eqb_eq.
  - by intros ->%String.eqb_eq.
  - apply heap.
  - apply heap.
Qed.

Lemma all_strict_eq_sound prev next : all_strict_eq prev next = true → prev = next.
Proof using heap.
  revert next. induction prev as [|a prev IH]; intros [|b next]; simpl; try done.
  intros [Hab Hrest]%andb_prop.
  by rewrite (strict_eq_sound _ _ Hab), (IH _ Hrest).
Qed.

Lemma areArgumentsShallowlyEqual_sound prev next :
  areArgumentsShallowlyEqual prev next = true → prev = Some next.
Proof using heap.
  destruct prev as [prev|]; simpl; [|done].
  by intros ->%all_strict_eq_sound.
Qed.


Lemma selector_nested_ind (P : selector → Prop) :
  (∀ f, P (Input f)) →
  (∀ cell dependencies resultFunc,
      Forall P dependencies → P (createSelector cell dependencies resultFunc)) →
  ∀ s, P s.
Proof.
  intros HInput HCreate. fix IH 1. intros [f|cell ds resultFunc].
  - apply HInput.
  - apply HCreate. induction ds as [|d ds IHds]; constructor; [apply IH|apply IHds].
Qed.


Lemma select_createSelector cell ds resultFunc state :
  select (createSelector cell ds resultFunc) state =
  result_map (λ d, select d state) ds ≫= resultFunc.
Proof. done. Qed.

Lemma cell_at_insert_eq (σ : store) cell c : cell_at (<[cell := c]> σ) cell = c.
Proof. unfold cell_at. by rewrite lookup_insert_eq. Qed.

Lemma cell_at_insert_ne (σ : store) cell cell' c :
  cell ≠ cell' → cell_at (<[cell := c]> σ) cell' = cell_at σ cell'.
Proof. intros Hne. unfold cell_at. by rewrite lookup_insert_ne. Qed.

Lemma consistent_insert prog (σ : store) cell s c :
  consistent prog σ → created_at prog cell = Some s → cell_ok s c →
  consistent prog (<[cell := c]> σ).
Proof.
  intros Hσ Hs Hc cell' s' Hs'. destruct (decide (cell = cell')) as [<-|Hne].
  - rewrite cell_at_insert_eq. congruence.
  - rewrite cell_at_insert_ne by done. by apply Hσ.
Qed.

Lemma consistent_empty prog : consistent prog ∅.
Proof.
  intros cell [f|cell' ds resultFunc] _; [done|].
  unfold cell_at. rewrite lookup_empty. simpl. split; [done|]. by intros args.
Qed.

Section Run.
Variable prog : list selector.

Lemma run_all_correct ds state :
  Forall (λ d, ∀ σ, consistent prog σ →
                 (run d state σ).2 = select d state ∧
                 consistent prog (run d state σ).1) ds →
  ∀ σ, consistent prog σ →
    (M_map (λ d, run d state) ds σ).2 = result_map (λ d, select d state) ds ∧
    consistent prog (M_map (λ d, run d state) ds σ).1.
Proof.
  induction 1 as [|d ds Hd _ IH]; intros σ Hσ; [done|].
  simpl. unfold mbind, M_bind. destruct (Hd σ Hσ) as [Hres Hσ1].
  destruct (run d state σ) as [σ1 [x|e]]; simpl in *; rewrite <- Hres; [|done].
  destruct (IH σ1 Hσ1) as [Hres' Hσ2].
  destruct (M_map _ ds σ1) as [σ2 [xs|e]]; simpl in *; by rewrite <- Hres'.
Qed.

Lemma run_correct s :
  linked prog s → ∀ state σ, consistent prog σ →
    (run s state σ).2 = select s state ∧ consistent prog (run s state σ).1.
Proof using heap.
  induction s as [f|cell ds resultFunc IH] using selector_nested_ind;
    intros Hlinked state σ Hσ; [done|].
  inversion Hlinked as [|? ? ? Hcell Hds]; subst.
  assert (Hdeps : Forall (λ d, ∀ σ, consistent prog σ →
                 (run d state σ).2 = select d state ∧
                 consistent prog (run d state σ).1) ds).
  { rewrite Forall_forall in *. intros d Hd. apply IH; [done|]. by apply Hds. }
  clear IH Hds Hlinked.
  rewrite select_createSelector.
  destruct (run (createSelector cell ds resultFunc) state σ) as [σ' r] eqn:Hrun.
  simpl in Hrun. unfold defaultMemoize at 1 in Hrun. simpl.
  destruct (areArgumentsShallowlyEqual _ [state]) eqn:Hhit.
  - (* the selector is called on the state of its last call *)
    apply areArgumentsShallowlyEqual_sound in Hhit.
    pose proof (Hσ _ _ Hcell) as [Houter Hinner].
    injection Hrun as <- <-. split.
    + rewrite <- select_createSelector with (cell := cell). by rewrite (Houter _ Hhit).
    + unfold write_selector_memo.
      apply consistent_insert with (s := createSelector cell ds resultFunc); [done..|].
      split; simpl; [|done]. intros state' [= <-]. by apply Houter.
  - clear Hhit. unfold mbind at 1, M_bind at 1 in Hrun.
    destruct (run_all_correct ds state Hdeps σ Hσ) as [Hparams Hσ1].
    destruct (M_map _ ds σ) as [σ1 [params|e]]; simpl in Hparams, Hσ1;
      rewrite <- Hparams; [|by injection Hrun as <- <-].
    pose proof (Hσ1 _ _ Hcell) as [Houter Hinner].
    assert (Hstore : ∀ r, resultFunc params = Ok r →
      consistent prog
        (write_selector_memo cell {| lastArgs := Some [state]; lastResult := r |}
           (write_resultFunc_memo cell
              {| lastArgs := Some params; lastResult := r |} σ1))).
    { intros r' Hr. unfold write_selector_memo.
      apply consistent_insert with (s := createSelector cell ds resultFunc); [|done|].
      - unfold write_resultFunc_memo.
        apply consistent_insert with (s := createSelector cell ds resultFunc); [done..|].
        split; simpl; [done|]. by intros args [= <-].
      - split; simpl.
        + intros state' [= <-]. by rewrite <- Hparams.
        + unfold write_resultFunc_memo. rewrite cell_at_insert_eq. simpl.
          by intros args [= <-]. }
    unfold defaultMemoize in Hrun.
    destruct (areArgumentsShallowlyEqual _ params) eqn:Hhit.
    + (* the dependencies returned what they returned last time *)
      apply areArgumentsShallowlyEqual_sound in Hhit.
      pose proof (Hinner _ Hhit) as Hr. injection Hrun as <- <-.
      split; [done|]. by apply Hstore.
    + unfold lift in Hrun. destruct (resultFunc params) as [r'|e] eqn:Hr;
        injection Hrun as <- <-; [|done].
      split; [done|]. by apply Hstore.
Qed.

End Run.

End Memo_correct.

(** ** Calls of created selectors, by the number of dependencies *)

Lemma select_params cell ds resultFunc state params :
  result_map (λ d, select d state) ds = Ok params →
  select (createSelector cell ds resultFunc) state = resultFunc params.
Proof. intros Hparams. rewrite select_createSelector. by rewrite Hparams. Qed.

Lemma select_1 cell d resultFunc state x :
  select d state = Ok x →
  select (createSelector cell [d] resultFunc) state = resultFunc [x].
Proof. intros Hx. rewrite select_createSelector. simpl. by rewrite Hx. Qed.

Lemma select_2 cell d1 d2 resultFunc state x y :
  select d1 state = Ok x → select d2 state = Ok y →
  select (createSelector cell [d1; d2] resultFunc) state = resultFunc [x; y].
Proof.
  intros Hx Hy. rewrite select_createSelector. simpl. by rewrite Hx, Hy.
Qed.

(** The default of lodash [get] is returned when the path leads to
    [undefined]. *)
Lemma get_default object path defaultValue :
  get object path VUndef = VUndef → get object path defaultValue = defaultValue.
Proof.
  unfold get. by destruct (if is_nullish object then _ else _).
Qed.

(** Reading the arguments of a result function. *)
Ltac read_args := unfold arg; simpl lookup; simpl default.

(** Closed goals about the example states are settled by evaluation. *)
Ltac evaluate := vm_compute; reflexivity.

(** ** Capability flags *)

Section Capabilities.
Context `{Environment}.

(** The three flags share one shape: [false] without a version, the
    comparison against the threshold otherwise. *)
Lemma flag_unfold cell threshold state v :
  Info.grpcProtoVersion state = Ok v →
  select (createSelector cell [Input Info.grpcProtoVersion] (λ args,
            let v := arg 0 args in
            if negb (truthy v) then Ok (VBool false)
            else VBool <$> semver_gte v threshold)) state =
  if truthy v then VBool <$> semver_gte v threshold else Ok (VBool false).
Proof.
  intros Hv. rewrite (select_1 _ _ _ _ v) by done.
  read_args. simpl. by destruct (truthy v).
Qed.

Lemma flag_true_iff (r : result bool) : VBool <$> r = Ok (VBool true) ↔ r = Ok true.
Proof.
  destruct r as [b|e]; simpl; split; try done.
  - by intros [= ->].
  - by intros [= ->].
Qed.

(** C2.  When the state holds a gRPC proto version (a truthy value), each
    capability flag is the outcome of [semver.gte] of that version against
    its threshold, prereleases included: [hasRouterSupport] against
    [0.7.1-beta], [hasSendPaymentV2Support] and [hasMppSupport] against
    [0.10.0-beta].  In particular each flag is [true] exactly when the
    comparison says greater-or-equal. *)
Theorem capability_flags_compare_versions state v :
  Info.grpcProtoVersion state = Ok v → truthy v = true →
  (select Info.hasRouterSupport state = VBool <$> semver_gte v "0.7.1-beta" ∧
   select Info.hasSendPaymentV2Support state = VBool <$> semver_gte v "0.10.0-beta" ∧
   select Info.hasMppSupport state = VBool <$> semver_gte v "0.10.0-beta") ∧
  ((select Info.hasRouterSupport state = Ok (VBool true)
      ↔ semver_gte v "0.7.1-beta" = Ok true) ∧
   (select Info.hasSendPaymentV2Support state = Ok (VBool true)
      ↔ semver_gte v "0.10.0-beta" = Ok true) ∧
   (select Info.hasMppSupport state = Ok (VBool true)
      ↔ semver_gte v "0.10.0-beta" = Ok true)).
Proof.
  intros Hv Hpresent.
  assert (Hflag : ∀ cell threshold,
    select (createSelector cell [Input Info.grpcProtoVersion] (λ args,
              let v := arg 0 args in
              if negb (truthy v) then Ok (VBool false)
              else VBool <$> semver_gte v threshold)) state =
    VBool <$> semver_gte v threshold).
  { intros cell threshold. by rewrite (flag_unfold _ _ _ v), Hpresent. }
  unfold Info.hasRouterSupport, Info.hasSendPaymentV2Support, Info.hasMppSupport.
  rewrite !Hflag. split; [done|]. by rewrite !flag_true_iff.
Qed.

(** C3.  Without a gRPC proto version ([undefined], [null] or the empty
    string) [hasRouterSupport] returns [false]. *)
Theorem hasRouterSupport_without_version state v :
  Info.grpcProtoVersion state = Ok v →
  v = VUndef ∨ v = VNull ∨ v = VStr "" →
  select Info.hasRouterSupport state = Ok (VBool false).
Proof.
  intros Hv Habsent. unfold Info.hasRouterSupport.
  rewrite (flag_unfold _ _ _ v) by done.
  by destruct Habsent as [->|[->| ->]].
Qed.

(** C8.  [hasMppSupport] and [hasSendPaymentV2Support] agree on every state:
    both are [false] when the gRPC proto version is missing, and both are the
    comparison of the version against [0.10.0-beta] otherwise. *)
Theorem hasMppSupport_is_hasSendPaymentV2Support state :
  ∃ v, Info.grpcProtoVersion state = Ok v ∧
       select Info.hasMppSupport state = select Info.hasSendPaymentV2Support state ∧
       select Info.hasMppSupport state =
         (if truthy v then VBool <$> semver_gte v "0.10.0-beta" else Ok (VBool false)) ∧
       select Info.hasSendPaymentV2Support state =
         (if truthy v then VBool <$> semver_gte v "0.10.0-beta" else Ok (VBool false)).
Proof.
  exists (get state "info.data.grpcProtoVersion" VUndef). split; [done|].
  unfold Info.hasMppSupport, Info.hasSendPaymentV2Support.
  by rewrite !(flag_unfold _ _ _ (get state "info.data.grpcProtoVersion" VUndef)).
Qed.

End Capabilities.

(** ** Splitting strings *)

Lemma split_cut c s :
  split c s =
  substring_before c s ::
    match substring_after c s with
    | None => []
    | Some rest => split c rest
    end.
Proof.
  unfold substring_before, substring_after.
  induction s as [|a s IH]; simpl; [done|].
  destruct (Ascii.eqb a c); [done|].
  rewrite IH. by destruct (cut c s) as [before [after|]].
Qed.

(** [cut] finds the first occurrence: nothing before it is the separator. *)
Lemma cut_spec c s :
  contains_char c (substring_before c s) = false ∧
  match substring_after c s with
  | None => s = substring_before c s
  | Some rest => s = substring_before c s +:+ String c rest
  end.
Proof.
  unfold substring_before, substring_after.
  induction s as [|a s [IHbefore IHafter]]; simpl; [done|].
  destruct (Ascii.eqb a c) eqn:Hac.
  - apply Ascii.eqb_eq in Hac as ->. done.
  - destruct (cut c s) as [before [after|]]; simpl in *; rewrite Hac; simpl;
      (split; [done|]); subst s; reflexivity.
Qed.

Lemma substring_before_app c before rest :
  contains_char c before = false →
  substring_before c (before +:+ String c rest) = before.
Proof.
  unfold substring_before. induction before as [|a before IH]; simpl.
  - by rewrite Ascii.eqb_refl.
  - intros [Hac Hbefore]%orb_false_elim. rewrite Hac.
    specialize (IH Hbefore). destruct (cut c _); simpl in *. by f_equal.
Qed.

Lemma substring_before_all c s :
  contains_char c s = false → substring_before c s = s.
Proof.
  unfold substring_before. induction s as [|a s IH]; simpl; [done|].
  intros [Hac Hs]%orb_false_elim. rewrite Hac.
  specialize (IH Hs). destruct (cut c s); simpl in *. by f_equal.
Qed.

Lemma member_0 elems : member (VArr elems) "0" = Ok (default VUndef (elems !! 0)).
Proof. done. Qed.

Lemma member_1 elems : member (VArr elems) "1" = Ok (default VUndef (elems !! 1)).
Proof. done. Qed.

Lemma split_first c s :
  (fields ← method_split (VStr s) c; member fields "0") =
  Ok (VStr (substring_before c s)).
Proof. simpl. rewrite member_0. by rewrite split_cut. Qed.

Lemma prefix_app pattern rest : String.prefix pattern (pattern +:+ rest) = true.
Proof.
  induction pattern as [|a pattern IH]; simpl; [by destruct rest|].
  by destruct (ascii_dec a a).
Qed.

Lemma drop_chars_app pattern rest :
  drop_chars (String.length pattern) (pattern +:+ rest) = rest.
Proof. induction pattern as [|a pattern IH]; simpl; [by destruct rest|done]. Qed.

Lemma replace_unfold pattern replacement s :
  replace pattern replacement s =
  if String.prefix pattern s then
    replacement +:+ drop_chars (String.length pattern) s
  else match s with
       | EmptyString => ""
       | String a s' => String a (replace pattern replacement s')
       end.
Proof. by destruct s. Qed.

(** A leading pattern is the first occurrence. *)
Lemma replace_leading pattern rest :
  replace pattern "" (pattern +:+ rest) = rest.
Proof. by rewrite replace_unfold, prefix_app, drop_chars_app. Qed.

(** ** Version and commit strings *)

(** C10, as stated, fails: the selectors split on single space characters
    and remove the first [commit=] wherever it stands.  With two spaces
    between version and commit the second field is empty and [commitString]
    is [undefined] although there is a second token; a tab does not separate;
    a [commit=] inside the second field is removed although it does not lead;
    and a version that is [null] or empty is returned as it is. *)
Lemma version_strings_counterexample :
  (select Info.commitString
     (Examples.version_state (VStr "0.9.0-beta  commit=abc")) = Ok VUndef ∧
   Spec.commitString (VStr "0.9.0-beta  commit=abc") = VStr "abc") ∧
  (select Info.versionString
     (Examples.version_state (VStr Examples.tabbed_version)) =
     Ok (VStr Examples.tabbed_version) ∧
   Spec.versionString (VStr Examples.tabbed_version) = VStr "0.9.0-beta") ∧
  (select Info.commitString
     (Examples.version_state (VStr "0.9.0-beta build-commit=abc")) =
     Ok (VStr "build-abc") ∧
   Spec.commitString (VStr "0.9.0-beta build-commit=abc") = VStr "build-commit=abc") ∧
  (select Info.versionString (Examples.version_state VNull) = Ok VNull ∧
   select Info.versionString (Examples.version_state (VStr "")) = Ok (VStr "") ∧
   Spec.versionString VNull = VUndef ∧ Spec.versionString (VStr "") = VUndef).
Proof. vm_compute. repeat split. Qed.

(** C10, amended.  [versionString] returns the node version unchanged when
    it is falsy ([undefined], [null] or the empty string) and otherwise the
    text of the version string before its first space.  [commitString]
    returns [undefined] when the version is falsy, has no space, or has
    nothing between its first and its second space; otherwise it returns the
    text between the first space and the next one (or the end), with the
    first occurrence of [commit=] removed. *)
Theorem version_strings_split_on_space state v :
  Info.version state = Ok v →
  (truthy v = false →
     select Info.versionString state = Ok v ∧
     select Info.commitString state = Ok VUndef) ∧
  (∀ s, v = VStr s → s ≠ "" →
     select Info.versionString state = Ok (VStr (substring_before " " s)) ∧
     select Info.commitString state =
       Ok (match substring_after " " s with
           | None => VUndef
           | Some rest =>
               let c := substring_before " " rest in
               if String.eqb c "" then VUndef else VStr (replace "commit=" "" c)
           end)).
Proof.
  intros Hv. unfold Info.versionString, Info.commitString.
  rewrite !(select_1 _ _ _ _ v) by done. read_args.
  split.
  - by intros ->.
  - intros s -> Hs.
    assert (Htruthy : truthy (VStr s) = true).
    { simpl. by destruct (String.eqb_spec s ""). }
    rewrite Htruthy. simpl negb. cbv iota. rewrite split_first. split; [done|].
    simpl method_split. cbn [mbind result_bind]. rewrite member_1, split_cut.
    destruct (substring_after " " s) as [rest|]; [rewrite split_cut|]; simpl; [|done].
    by destruct (String.eqb (substring_before " " rest) "").
Qed.

(** ** Node pubkey *)

(** C4.  The resolution has a gap that the guard [n && ...] is there to
    close and does not: with no identity pubkey and an empty list of uris (a
    list that is set: it is truthy) there is no first uri, and the selector
    throws a [TypeError] instead of resolving. *)
Theorem nodePubkey_throws_on_empty_uris :
  Info.identityPubkey Examples.no_uris_state = Ok VUndef ∧
  Info.nodeUris Examples.no_uris_state = Ok (VArr []) ∧
  truthy (VArr []) = true ∧
  select Info.nodePubkey Examples.no_uris_state = Throw TypeError.
Proof. vm_compute. repeat split. Qed.

(** Wherever the list of uris has a first uri the resolution is as C4 says:
    if the identity pubkey is set (truthy) [nodePubkey] returns it unchanged;
    otherwise, if the node uris are a list whose first element is a string,
    it returns the text of this first uri before its first [@]. *)
Theorem nodePubkey_resolution state n pk :
  Info.nodeUris state = Ok n → Info.identityPubkey state = Ok pk →
  (truthy pk = true → select Info.nodePubkey state = Ok pk) ∧
  (truthy pk = false → ∀ uri uris, n = VArr (VStr uri :: uris) →
     select Info.nodePubkey state = Ok (VStr (substring_before "@" uri))).
Proof.
  intros Hn Hpk. unfold Info.nodePubkey.
  rewrite (select_2 _ _ _ _ _ n pk) by done. read_args.
  split.
  - by intros ->.
  - intros -> uri uris ->. simpl truthy. cbv iota.
    rewrite member_0. simpl lookup. simpl default. simpl mbind at 1.
    apply split_first.
Qed.

(** What [nodePubkey] does when neither is there: an empty list of uris
    makes it throw, and a missing list is returned as it is. *)
Lemma nodePubkey_without_pubkey state n pk :
  Info.nodeUris state = Ok n → Info.identityPubkey state = Ok pk →
  truthy pk = false →
  (n = VArr [] → select Info.nodePubkey state = Throw TypeError) ∧
  (truthy n = false → select Info.nodePubkey state = Ok n).
Proof.
  intros Hn Hpk Hfalsy. unfold Info.nodePubkey.
  rewrite (select_2 _ _ _ _ _ n pk) by done. read_args.
  rewrite Hfalsy. split.
  - by intros ->.
  - by intros ->.
Qed.

(** ** Missing fields *)

Section Missing_fields.
Context `{Environment}.

(** [networkInfo] falls back to [{}] when the networks have no entry for the
    current chain and network, and then reads a property of the
    [explorerUrls] this [{}] does not have. *)
Lemma networkInfo_without_entry state chain network networks :
  Info.chainSelector state = Ok chain →
  Info.networkSelector state = Ok network →
  Info.networksSelector state = Ok networks →
  get networks (to_string chain +:+ "." +:+ to_string network) VUndef = VUndef →
  throws (select Info.networkInfo state).
Proof.
  intros Hchain Hnetwork Hnetworks Hentry. unfold Info.networkInfo.
  destruct (currentConfig state) as [config|e] eqn:Hconfig.
  - rewrite (select_params _ _ _ _ [chain; network; networks; config]).
    + read_args. cbv zeta.
      rewrite (get_default _ _ _ Hentry).
      replace (member (VObj ∅) "explorerUrls") with (Ok (A := val) VUndef) by done.
      cbn [mbind result_bind].
      destruct (member config "blockExplorer") as [blockExplorer|e]; [|by exists e].
      by exists TypeError.
    + simpl. by rewrite Hchain, Hnetwork, Hnetworks, Hconfig.
  - exists e. rewrite select_createSelector. simpl.
    by rewrite Hchain, Hnetwork, Hnetworks, Hconfig.
Qed.

(** C1.  The selectors do not always default: on a state whose networks have
    no entry for the current chain and network (here [bitcoin.testnet], or
    the [null.null] of a state where neither is chosen yet) [networkInfo]
    throws, and on a state without identity pubkey whose list of uris is
    empty [nodePubkey] throws. *)
Theorem networkInfo_and_nodePubkey_throw :
  throws (select Info.networkInfo
            (Examples.other_network_state (VStr "bitcoin") (VStr "testnet"))) ∧
  throws (select Info.networkInfo (Examples.other_network_state VNull VNull)) ∧
  select Info.nodePubkey Examples.no_uris_state = Throw TypeError.
Proof.
  split; [|split].
  - apply (networkInfo_without_entry _ (VStr "bitcoin") (VStr "testnet")
             Examples.known_networks); evaluate.
  - apply (networkInfo_without_entry _ VNull VNull Examples.known_networks);
      evaluate.
  - evaluate.
Qed.

End Missing_fields.

(** ** Purity *)

Section Purity.
Context `{Environment}.
Hypothesis heap : immutable_heap.

Lemma exported_linked : Forall (linked exported.*2) exported.*2.
Proof. repeat constructor. Qed.

Lemma replay_consistent calls σ :
  client_calls calls → consistent exported.*2 σ →
  consistent exported.*2 (replay calls σ).
Proof using heap.
  intros Hcalls. revert σ.
  induction Hcalls as [|[s state] calls Hs _ IH]; intros σ Hσ; [done|].
  simpl. apply IH. apply run_correct; [done| |done].
  pose proof exported_linked as Hlinked. rewrite Forall_forall in Hlinked.
  by apply Hlinked.
Qed.

(** C5.  Every exported selector is a function of the state it is applied
    to: whatever calls of exported selectors came before (and so whatever
    the memos hold), a call returns or throws what the selector computes on
    that state alone, so two calls on equal states give equal results.
    (The settings configuration read by [networkInfo] is itself selected from
    the state.) *)
Theorem exported_selectors_depend_on_state_only
    calls1 calls2 name s state1 state2 :
  client_calls calls1 → client_calls calls2 →
  (name, s) ∈ exported → state1 = state2 →
  (run s state1 (replay calls1 ∅)).2 = select s state1 ∧
  (run s state1 (replay calls1 ∅)).2 = (run s state2 (replay calls2 ∅)).2.
Proof using heap.
  intros Hcalls1 Hcalls2 Hs <-.
  assert (Hlinked : linked exported.*2 s).
  { pose proof exported_linked as Hlinked. rewrite Forall_forall in Hlinked.
    apply Hlinked. apply list_elem_of_fmap. by exists (name, s). }
  assert (Hrun : ∀ calls, client_calls calls →
            (run s state1 (replay calls ∅)).2 = select s state1).
  { intros calls Hcalls. eapply proj1, (run_correct heap exported.*2); [done|].
    apply replay_consistent; [done|]. apply consistent_empty. }
  by rewrite !Hrun.
Qed.

End Purity.

(** The assumption on the store is needed: were the state updated in place,
    a selector would answer from its memo and return the version of the
    state it saw before. *)
Lemma stale_result_in_mutated_store :
  (run (H := aliasing_environment) Info.versionString
     (Examples.version_state (VStr "0.10.0-beta commit=abc"))
     (replay (H := aliasing_environment)
        [(Info.versionString, Examples.version_state (VStr "0.9.0-beta commit=abc"))]
        ∅)).2 = Ok (VStr "0.9.0-beta") ∧
  select Info.versionString (Examples.version_state (VStr "0.10.0-beta commit=abc")) =
    Ok (VStr "0.10.0-beta").
Proof. split; evaluate. Qed.

(** ** Invoices *)

Lemma result_map_Forall2 {A B} (f : A → result B) l ys :
  result_map f l = Ok ys ↔ Forall2 (λ x y, f x = Ok y) l ys.
Proof.
  revert ys. induction l as [|x l IH]; intros ys; simpl.
  - split; [by intros [= <-]; constructor|by inversion 1].
  - destruct (f x) as [y|e] eqn:Hx; simpl.
    + destruct (result_map f l) as [ys'|e] eqn:Hl; simpl.
      * split.
        -- intros [= <-]. constructor; [done|]. by apply IH.
        -- inversion 1 as [|? y' ? ys'' Hy Hys]; subst.
           apply IH in Hys. congruence.
      * split; [done|]. inversion 1 as [|? y' ? ys'' Hy Hys]; subst.
        by apply IH in Hys.
    + split; [done|]. inversion 1; congruence.
Qed.

Section Invoices.
Context `{Environment}.

(** C7.  [invoices] is the element-wise map of [decorateInvoice] over the
    raw list of invoices: what it returns is a list of the same length whose
    i-th element is [decorateInvoice] of the i-th raw invoice, and every such
    list is what it returns. *)
Theorem invoices_maps_decorateInvoice state items :
  Invoice.invoicesSelector state = Ok (VArr items) →
  (∀ r, select Invoice.invoices state = Ok r → ∃ decorated, r = VArr decorated) ∧
  (∀ decorated,
     select Invoice.invoices state = Ok (VArr decorated) ↔
     length decorated = length items ∧
     ∀ i item, items !! i = Some item →
       ∃ d, decorated !! i = Some d ∧ decorateInvoice item = Ok d).
Proof.
  intros Hitems. unfold Invoice.invoices.
  rewrite (select_1 _ _ _ _ (VArr items)) by done.
  read_args. simpl method_map.
  destruct (result_map decorateInvoice items) as [ds|e] eqn:Hmap; simpl.
  - apply result_map_Forall2 in Hmap. split.
    + intros r [= <-]. by exists ds.
    + intros decorated. split.
      * intros [= <-]. split; [by rewrite (Forall2_length _ _ _ Hmap)|].
        intros i item Hi.
        destruct (Forall2_lookup_l _ _ _ _ _ Hmap Hi) as (d & Hd & Hdecorated).
        by exists d.
      * intros [Hlength Hpointwise]. do 2 f_equal.
        apply list_eq_same_length with (length items);
          [done|by rewrite (Forall2_length _ _ _ Hmap)|].
        intros i d d' _ Hd Hd'.
        destruct (lookup_lt_is_Some_2 items i) as [item Hitem].
        { rewrite <- Hlength. by apply lookup_lt_Some with d'. }
        destruct (Hpointwise i item Hitem) as (d'' & Hd'' & Hdecorated).
        destruct (Forall2_lookup_l _ _ _ _ _ Hmap Hitem) as (d3 & Hd3 & Hdecorated3).
        congruence.
  - split; [done|]. intros decorated. split; [done|].
    intros [Hlength Hpointwise]. exfalso.
    assert (Hall : Forall2 (λ x y, decorateInvoice x = Ok y) items decorated).
    { apply Forall2_same_length_lookup. split; [done|].
      intros i item d Hitem Hd.
      destruct (Hpointwise i item Hitem) as (d' & Hd' & Hdecorated). congruence. }
    apply result_map_Forall2 in Hall. congruence.
Qed.

Lemma find_first_hit paymentRequest before item after :
  Forall (passed_over paymentRequest) before →
  is_nullish item = false →
  strict_eq (get_prop item "paymentRequest") paymentRequest = true →
  find_first (λ item, itemRequest ← member item "paymentRequest";
                      Ok (strict_eq itemRequest paymentRequest))
    (before ++ item :: after)%list = Ok item.
Proof.
  intros Hbefore Hitem Hmatch.
  induction Hbefore as [|d before [Hd Hmiss] _ IH]; simpl.
  - rewrite (member_ok _ _ Hitem). simpl. by rewrite Hmatch.
  - rewrite (member_ok _ _ Hd). simpl. by rewrite Hmiss.
Qed.

Lemma find_first_miss paymentRequest decorated :
  Forall (passed_over paymentRequest) decorated →
  find_first (λ item, itemRequest ← member item "paymentRequest";
                      Ok (strict_eq itemRequest paymentRequest))
    decorated = Ok VUndef.
Proof.
  induction 1 as [|d decorated [Hd Hmiss] _ IH]; simpl; [done|].
  rewrite (member_ok _ _ Hd). simpl. by rewrite Hmiss.
Qed.

(** C6.  [invoice] returns the first decorated invoice whose
    [paymentRequest] is (by [===]) the selected payment request
    [state.invoice.invoice], and [undefined] when no decorated invoice has
    it.  The decorated invoices gone through are objects. *)
Theorem invoice_finds_selected state decorated paymentRequest :
  select Invoice.invoices state = Ok (VArr decorated) →
  Invoice.invoiceSelector state = Ok paymentRequest →
  (∀ before item after,
     decorated = (before ++ item :: after)%list →
     Forall (passed_over paymentRequest) before →
     is_nullish item = false →
     strict_eq (get_prop item "paymentRequest") paymentRequest = true →
     select Invoice.invoice state = Ok item) ∧
  (Forall (passed_over paymentRequest) decorated →
   select Invoice.invoice state = Ok VUndef).
Proof.
  intros Hinvoices Hselected. unfold Invoice.invoice.
  rewrite (select_2 _ _ _ _ _ (VArr decorated) paymentRequest) by done.
  read_args. simpl method_find. split.
  - intros before item after -> Hbefore Hitem Hmatch. by apply find_first_hit.
  - apply find_first_miss.
Qed.

End Invoices.

(** ** The amount shown by [RequestSummary] *)

Section Amount.
Context `{Environment}.


End Amount.

(** ** The theorems at work on the example states *)

Lemma capability_flags_compare_versions_witness :
  Info.grpcProtoVersion (Examples.node_state "0.9.0-beta") = Ok (VStr "0.9.0-beta") ∧
  truthy (VStr "0.9.0-beta") = true ∧
  select (Info.hasRouterSupport (H := reference_environment))
    (Examples.node_state "0.9.0-beta") = Ok (VBool true) ∧
  select (Info.hasSendPaymentV2Support (H := reference_environment))
    (Examples.node_state "0.9.0-beta") = Ok (VBool false) ∧
  select (Info.hasMppSupport (H := reference_environment))
    (Examples.node_state "0.9.0-beta") = Ok (VBool false).
Proof.
  assert (Hv : Info.grpcProtoVersion (Examples.node_state "0.9.0-beta") =
               Ok (VStr "0.9.0-beta")) by evaluate.
  assert (Hpresent : truthy (VStr "0.9.0-beta") = true) by reflexivity.
  destruct (capability_flags_compare_versions (H := reference_environment)
              _ _ Hv Hpresent) as [(Hrouter & Hpayment & Hmpp) _].
  rewrite Hrouter, Hpayment, Hmpp. repeat split; evaluate.
Defined.

Lemma hasRouterSupport_without_version_witness :
  Info.grpcProtoVersion Examples.empty_state = Ok VUndef ∧
  select (Info.hasRouterSupport (H := reference_environment)) Examples.empty_state =
    Ok (VBool false).
Proof.
  split; [evaluate|].
  apply (hasRouterSupport_without_version (H := reference_environment) _ VUndef).
  - evaluate.
  - by left.
Defined.

Lemma version_strings_split_on_space_witness :
  Info.version (Examples.node_state "0.9.0-beta") =
    Ok (VStr "0.9.0-beta commit=v0.9.0-beta") ∧
  select Info.versionString (Examples.node_state "0.9.0-beta") =
    Ok (VStr "0.9.0-beta") ∧
  select Info.commitString (Examples.node_state "0.9.0-beta") =
    Ok (VStr "v0.9.0-beta").
Proof.
  assert (Hv : Info.version (Examples.node_state "0.9.0-beta") =
               Ok (VStr "0.9.0-beta commit=v0.9.0-beta")) by evaluate.
  split; [exact Hv|].
  destruct (version_strings_split_on_space _ _ Hv) as [_ Hsplit].
  destruct (Hsplit "0.9.0-beta commit=v0.9.0-beta" eq_refl) as [Hversion Hcommit];
    [discriminate|].
  rewrite Hversion, Hcommit. split; evaluate.
Defined.

Lemma nodePubkey_resolution_witness :
  Info.nodeUris (Examples.node_state "0.9.0-beta") =
    Ok (VArr [VStr "02abc@1.2.3.4:9735"]) ∧
  Info.identityPubkey (Examples.node_state "0.9.0-beta") = Ok VUndef ∧
  select Info.nodePubkey (Examples.node_state "0.9.0-beta") = Ok (VStr "02abc").
Proof.
  assert (Hn : Info.nodeUris (Examples.node_state "0.9.0-beta") =
               Ok (VArr [VStr "02abc@1.2.3.4:9735"])) by evaluate.
  assert (Hpk : Info.identityPubkey (Examples.node_state "0.9.0-beta") = Ok VUndef)
    by evaluate.
  split; [exact Hn|]. split; [exact Hpk|].
  destruct (nodePubkey_resolution _ _ _ Hn Hpk) as [_ Huri].
  rewrite (Huri eq_refl "02abc@1.2.3.4:9735" [] eq_refl). evaluate.
Defined.

Lemma invoices_maps_decorateInvoice_witness :
  Invoice.invoicesSelector Examples.invoice_state =
    Ok (VArr [Examples.first_invoice; Examples.second_invoice]) ∧
  select (Invoice.invoices (H := reference_environment)) Examples.invoice_state =
    Ok (VArr [Examples.decorated Examples.first_invoice;
              Examples.decorated Examples.second_invoice]).
Proof.
  assert (Hitems : Invoice.invoicesSelector Examples.invoice_state =
                   Ok (VArr [Examples.first_invoice; Examples.second_invoice]))
    by evaluate.
  split; [exact Hitems|].
  apply (invoices_maps_decorateInvoice (H := reference_environment) _ _ Hitems).
  split; [reflexivity|].
  intros [|[|i]] item [= <-]; eexists; split; reflexivity.
Defined.

Lemma invoice_finds_selected_witness :
  select (Invoice.invoices (H := reference_environment)) Examples.invoice_state =
    Ok (VArr [Examples.decorated Examples.first_invoice;
              Examples.decorated Examples.second_invoice]) ∧
  Invoice.invoiceSelector Examples.invoice_state = Ok (VStr "lnbc2") ∧
  select (Invoice.invoice (H := reference_environment)) Examples.invoice_state =
    Ok (Examples.decorated Examples.second_invoice).
Proof.
  assert (Hinvoices :
    select (Invoice.invoices (H := reference_environment)) Examples.invoice_state =
    Ok (VArr [Examples.decorated Examples.first_invoice;
              Examples.decorated Examples.second_invoice]))
    by evaluate.
  assert (Hselected : Invoice.invoiceSelector Examples.invoice_state = Ok (VStr "lnbc2"))
    by evaluate.
  split; [exact Hinvoices|]. split; [exact Hselected|].
  apply (proj1 (invoice_finds_selected (H := reference_environment)
                  _ _ _ Hinvoices Hselected)
           [Examples.decorated Examples.first_invoice]
           (Examples.decorated Examples.second_invoice) []).
  - reflexivity.
  - repeat constructor.
  - reflexivity.
  - evaluate.
Defined.


Lemma reference_heap_immutable : immutable_heap (H := reference_environment).
Proof. intros a b Hsame. discriminate Hsame. Defined.

Lemma exported_selectors_depend_on_state_only_witness :
  immutable_heap (H := reference_environment) ∧
  client_calls (H := reference_environment) Examples.earlier_calls ∧
  ("versionString", Info.versionString) ∈ exported (H := reference_environment) ∧
  (run (H := reference_environment) Info.versionString
     (Examples.node_state "0.7.1-beta")
     (replay (H := reference_environment) Examples.earlier_calls ∅)).2 =
    Ok (VStr "0.9.0-beta") ∧
  (run (H := reference_environment) Info.versionString
     (Examples.node_state "0.7.1-beta")
     (replay (H := reference_environment) Examples.earlier_calls ∅)).2 =
  (run (H := reference_environment) Info.versionString
     (Examples.node_state "0.7.1-beta") ∅).2.
Proof.
  assert (Hcalls : client_calls (H := reference_environment) Examples.earlier_calls).
  { repeat (apply Forall_cons; split); [..|by apply Forall_nil]; simpl.
    - by apply (list_elem_of_lookup_2 _ 18).
    - by apply (list_elem_of_lookup_2 _ 12).
    - by apply (list_elem_of_lookup_2 _ 19). }
  assert (Hexported : ("versionString", Info.versionString) ∈
                      exported (H := reference_environment)).
  { by apply (list_elem_of_lookup_2 _ 12). }
  split; [exact reference_heap_immutable|]. split; [exact Hcalls|].
  split; [exact Hexported|].
  destruct (exported_selectors_depend_on_state_only (H := reference_environment)
              reference_heap_immutable Examples.earlier_calls [] _ _
              (Examples.node_state "0.7.1-beta") (Examples.node_state "0.7.1-beta")
              Hcalls (Forall_nil_2 _) Hexported eq_refl) as [Hpure Hequal].
  split; [|exact Hequal]. rewrite Hpure. evaluate.
Defined.

(** * Further properties of the code *)

(** ** Reading the state *)

Lemma get_prop_nullish object key : is_nullish object = true → get_prop object key = VUndef.
Proof. by destruct object. Qed.

Lemma baseGet_reads object path :
  baseGet object path = foldl get_prop object path.
Proof.
  revert object. induction path as [|key path IH]; intros object; simpl; [done|].
  destruct (is_nullish object) eqn:Hobject; [|done].
  rewrite (get_prop_nullish _ _ Hobject). clear.
  induction path as [|key' path IH]; simpl; [done|]. done.
Qed.

Lemma split_without c s : contains_char c s = false → split c s = [s].
Proof.
  induction s as [|a s IH]; simpl; [done|].
  intros [Hac Hs]%orb_false_elim. by rewrite Hac, (IH Hs).
Qed.

Lemma split_app c before rest :
  contains_char c before = false →
  split c (before +:+ String c rest) = before :: split c rest.
Proof.
  induction before as [|a before IH]; simpl.
  - by rewrite Ascii.eqb_refl.
  - intros [Hac Hbefore]%orb_false_elim. by rewrite Hac, (IH Hbefore).
Qed.

Lemma contains_char_app c s1 s2 :
  contains_char c (s1 +:+ s2) = contains_char c s1 || contains_char c s2.
Proof. induction s1 as [|a s1 IH]; simpl; [done|]. by rewrite IH, orb_assoc. Qed.

(** [get(state, 'info.data.<field>', default)] when the state has no property
    that is itself called ['info.data.<field>']. *)
Lemma get_info_data state field defaultValue :
  contains_char "." field = false →
  has_property state ("info.data." +:+ field) = false →
  get state ("info.data." +:+ field) defaultValue =
    match get_prop (get_prop (get_prop state "info") "data") field with
    | VUndef => defaultValue
    | v => v
    end.
Proof.
  intros Hfield Hliteral. unfold get, castPath, isKey. rewrite Hliteral.
  replace (contains_char "." ("info.data." +:+ field)) with true by done.
  simpl negb. simpl orb. cbv iota. unfold stringToPath.
  replace (split "." ("info.data." +:+ field)) with ["info"; "data"; field].
  2:{ change ("info.data." +:+ field) with ("info" +:+ String "." ("data" +:+ String "." field)).
      rewrite !split_app by done. by rewrite split_without. }
  rewrite baseGet_reads. simpl foldl.
  destruct (is_nullish state) eqn:Hstate.
  - by rewrite !(get_prop_nullish state), !(get_prop_nullish VUndef).
  - by destruct (get_prop (get_prop (get_prop state "info") "data") field).
Qed.

Lemma get_never_undefined object path defaultValue :
  defaultValue ≠ VUndef → get object path defaultValue ≠ VUndef.
Proof.
  intros Hdefault. unfold get.
  by destruct (if is_nullish object then _ else _).
Qed.

(** X1.  The selectors that go through lodash [get] return on every state,
    [null] and [undefined] included, and never return [undefined] when their
    default is not [undefined] ([isSyncedToChain]).  On a state that has no
    property literally called ['info.data.<field>'] they read
    [state.info.data.<field>], stepping over missing levels, and give the
    default where that is [undefined]. *)
Theorem get_selectors_read_safely state f field defaultValue :
  (f, field, defaultValue) ∈ get_selectors →
  (∃ v, f state = Ok v ∧ (defaultValue ≠ VUndef → v ≠ VUndef)) ∧
  (has_property state ("info.data." +:+ field) = false →
   f state =
     Ok (match get_prop (get_prop (get_prop state "info") "data") field with
         | VUndef => defaultValue
         | v => v
         end)).
Proof.
  intros Hin.
  assert (Hf : f state = Ok (get state ("info.data." +:+ field) defaultValue) ∧
               contains_char "." field = false).
  { unfold get_selectors in Hin.
    repeat (apply elem_of_cons in Hin as [[= -> -> ->]|Hin]; [done|]).
    by apply elem_of_nil in Hin. }
  destruct Hf as [Hf Hfield]. rewrite Hf. split.
  - eexists. split; [done|]. apply get_never_undefined.
  - intros Hliteral. by rewrite get_info_data.
Qed.

Lemma get_selectors_read_safely_witness :
  (Info.version, "version", VUndef) ∈ get_selectors ∧
  has_property (Examples.node_state "0.9.0-beta") "info.data.version" = false ∧
  Info.version (Examples.node_state "0.9.0-beta") =
    Ok (VStr "0.9.0-beta commit=v0.9.0-beta") ∧
  Info.version VNull = Ok VUndef.
Proof.
  assert (Hin : (Info.version, "version", VUndef) ∈ get_selectors).
  { by apply (list_elem_of_lookup_2 _ 1). }
  split; [exact Hin|]. split; [evaluate|]. split.
  - rewrite (proj2 (get_selectors_read_safely _ _ _ _ Hin)); evaluate.
  - rewrite (proj2 (get_selectors_read_safely _ _ _ _ Hin)); evaluate.
Defined.

(** X2.  The selectors that read [state.info.<field>] directly throw a
    [TypeError] exactly when the state or its [info] is [null] or
    [undefined]; otherwise they return the field, [undefined] if it is not
    there. *)
Theorem direct_selectors_read_strictly state f field :
  (f, field) ∈ direct_selectors →
  f state =
    if is_nullish state || is_nullish (get_prop state "info") then Throw TypeError
    else Ok (get_prop (get_prop state "info") field).
Proof.
  intros Hin.
  assert (Hf : f state = (info ← member state "info"; member info field)).
  { unfold direct_selectors in Hin.
    repeat (apply elem_of_cons in Hin as [[= -> ->]|Hin]; [done|]).
    by apply elem_of_nil in Hin. }
  rewrite Hf. unfold member.
  destruct (is_nullish state); simpl; [done|].
  by destruct (is_nullish (get_prop state "info")).
Qed.

Lemma direct_selectors_read_strictly_witness :
  (Info.chainSelector, "chain") ∈ direct_selectors ∧
  Info.chainSelector Examples.empty_state = Throw TypeError ∧
  Info.chainSelector (Examples.node_state "0.9.0-beta") = Ok (VStr "bitcoin").
Proof.
  assert (Hin : (Info.chainSelector, "chain") ∈ direct_selectors).
  { by apply (list_elem_of_lookup_2 _ 0). }
  split; [exact Hin|]. split.
  - rewrite (direct_selectors_read_strictly _ _ _ Hin). evaluate.
  - rewrite (direct_selectors_read_strictly _ _ _ Hin). evaluate.
Defined.

(** ** Version and commit strings, continued *)

(** What the two selectors do, by the kind of value the version is. *)
Lemma versionString_cases state v :
  Info.version state = Ok v →
  select Info.versionString state =
    if truthy v then
      match v with
      | VStr s => Ok (VStr (substring_before " " s))
      | _ => Throw TypeError
      end
    else Ok v.
Proof.
  intros Hv. unfold Info.versionString. rewrite (select_1 _ _ _ _ v) by done.
  read_args. destruct (truthy v); [|done].
  destruct v; try done. apply split_first.
Qed.

Lemma commitString_cases state v :
  Info.version state = Ok v →
  select Info.commitString state =
    if truthy v then
      match v with
      | VStr s =>
          Ok (match substring_after " " s with
              | None => VUndef
              | Some rest =>
                  let c := substring_before " " rest in
                  if String.eqb c "" then VUndef else VStr (replace "commit=" "" c)
              end)
      | _ => Throw TypeError
      end
    else Ok VUndef.
Proof.
  intros Hv. unfold Info.commitString. rewrite (select_1 _ _ _ _ v) by done.
  read_args. destruct (truthy v); [|done]. simpl negb. cbv iota.
  destruct v; try done.
  simpl method_split. cbn [mbind result_bind]. rewrite member_1, split_cut.
  destruct (substring_after " " s) as [rest|]; [rewrite split_cut|]; simpl; [|done].
  by destruct (String.eqb (substring_before " " rest) "").
Qed.

Lemma drop_chars_without c n s :
  contains_char c s = false → contains_char c (drop_chars n s) = false.
Proof.
  revert s. induction n as [|n IH]; intros [|a s]; simpl; try done.
  intros [_ Hs]%orb_false_elim. by apply IH.
Qed.

Lemma replace_without c pattern s :
  contains_char c s = false → contains_char c (replace pattern "" s) = false.
Proof.
  induction s as [|a s IH]; intros Hs; rewrite replace_unfold.
  - destruct (String.prefix pattern ""); [|done]. by apply drop_chars_without.
  - destruct (String.prefix pattern (String a s)).
    + by apply drop_chars_without.
    + simpl in *. apply orb_false_elim in Hs as [Hac Hs]. by rewrite Hac, IH.
Qed.

Lemma append_empty s : s +:+ "" = s.
Proof.
  induction s as [|a s IH]; [done|].
  change (String a (s +:+ "") = String a s). by rewrite IH.
Qed.

(** X3.  Neither selector ever returns a string with a space in it: the
    version string ends before the first space and the commit string before
    the second. *)
Theorem version_strings_have_no_space state s :
  (select Info.versionString state = Ok (VStr s) → contains_char " " s = false) ∧
  (select Info.commitString state = Ok (VStr s) → contains_char " " s = false).
Proof.
  rewrite (versionString_cases state _ eq_refl), (commitString_cases state _ eq_refl).
  destruct (get state "info.data.version" VUndef) as [| |b|[|z]|s'|elems|fields];
    simpl; try (by split).
  - destruct b; by split.
  - destruct (negb (z =? 0)%Z); by split.
  - destruct (String.eqb_spec s' "") as [->|Hs']; simpl.
    + split; [by intros [= <-]|done].
    + split.
      * intros [= <-]. apply cut_spec.
      * destruct (substring_after " " s') as [rest|]; [|done]. simpl.
        destruct (String.eqb (substring_before " " rest) ""); [done|].
        intros [= <-]. apply replace_without, cut_spec.
Qed.

Lemma version_strings_have_no_space_witness :
  select Info.versionString (Examples.node_state "0.9.0-beta") = Ok (VStr "0.9.0-beta") ∧
  contains_char " " "0.9.0-beta" = false.
Proof.
  assert (Hversion : select Info.versionString (Examples.node_state "0.9.0-beta") =
                     Ok (VStr "0.9.0-beta")) by evaluate.
  split; [exact Hversion|].
  exact (proj1 (version_strings_have_no_space _ _) Hversion).
Defined.

(** X4.  A version of the form [<version> commit=<commit>], where neither
    part has a space, is taken apart again: [versionString] is the version
    and [commitString] the commit, whatever follows after a further space. *)
Theorem version_strings_round_trip state version commit tail :
  contains_char " " version = false →
  contains_char " " commit = false →
  tail = "" ∨ (∃ more, tail = String " " more) →
  Info.version state = Ok (VStr (version +:+ " commit=" +:+ commit +:+ tail)) →
  select Info.versionString state = Ok (VStr version) ∧
  select Info.commitString state = Ok (VStr commit).
Proof.
  intros Hversion Hcommit Htail Hv.
  rewrite (versionString_cases _ _ Hv), (commitString_cases _ _ Hv).
  assert (Htruthy : truthy (VStr (version +:+ " commit=" +:+ commit +:+ tail)) = true).
  { simpl. by destruct version. }
  rewrite Htruthy.
  assert (Hsecond : substring_before " " ("commit=" +:+ commit +:+ tail) =
                    "commit=" +:+ commit).
  { destruct Htail as [->|[more ->]].
    - rewrite append_empty.
      apply substring_before_all. by rewrite contains_char_app, Hcommit.
    - change ("commit=" +:+ commit +:+ String " " more)
        with (("commit=" +:+ commit) +:+ String " " more).
      apply substring_before_app. by rewrite contains_char_app, Hcommit. }
  pose proof (cut_spec " " (version +:+ " commit=" +:+ commit +:+ tail)) as [_ Hcut].
  pose proof (substring_before_app " " version ("commit=" +:+ commit +:+ tail) Hversion)
    as Hfirst.
  change (version +:+ String " " ("commit=" +:+ commit +:+ tail))
    with (version +:+ " commit=" +:+ commit +:+ tail) in Hfirst.
  rewrite Hfirst. split; [done|].
  destruct (substring_after " " (version +:+ " commit=" +:+ commit +:+ tail))
    as [rest|] eqn:Hafter.
  - rewrite Hfirst in Hcut.
    assert (rest = "commit=" +:+ commit +:+ tail) as ->.
    { clear -Hcut. induction version as [|a version IH]; simpl in Hcut.
      - by injection Hcut as <-.
      - injection Hcut as Hcut. by apply IH. }
    cbv zeta. rewrite Hsecond.
    replace (String.eqb ("commit=" +:+ commit) "") with false by done.
    by rewrite replace_leading.
  - exfalso. rewrite Hfirst in Hcut. clear -Hcut.
    induction version as [|a version IH]; simpl in Hcut; [done|].
    injection Hcut as Hcut. by apply IH.
Qed.

Lemma version_strings_round_trip_witness :
  Info.version (Examples.node_state "0.9.0-beta") =
    Ok (VStr ("0.9.0-beta" +:+ " commit=" +:+ "v0.9.0-beta" +:+ "")) ∧
  select Info.versionString (Examples.node_state "0.9.0-beta") = Ok (VStr "0.9.0-beta") ∧
  select Info.commitString (Examples.node_state "0.9.0-beta") = Ok (VStr "v0.9.0-beta").
Proof.
  assert (Hv : Info.version (Examples.node_state "0.9.0-beta") =
               Ok (VStr ("0.9.0-beta" +:+ " commit=" +:+ "v0.9.0-beta" +:+ "")))
    by evaluate.
  split; [exact Hv|].
  apply (version_strings_round_trip _ "0.9.0-beta" "v0.9.0-beta" ""); try done.
  by left.
Defined.

(** X5.  The two selectors throw exactly when the version is there (truthy)
    and is not a string, and what they throw is a [TypeError]. *)
Theorem version_strings_throw_on_non_strings state v e :
  Info.version state = Ok v →
  (select Info.versionString state = Throw e ↔
     e = TypeError ∧ truthy v = true ∧ is_string v = false) ∧
  (select Info.commitString state = Throw e ↔
     e = TypeError ∧ truthy v = true ∧ is_string v = false).
Proof.
  intros Hv. rewrite (versionString_cases _ _ Hv), (commitString_cases _ _ Hv).
  destruct (truthy v) eqn:Htruthy; destruct v; simpl;
    split; (split; [by intros [= <-]|by intros (-> & ? & ?)]).
Qed.

Lemma version_strings_throw_on_non_strings_witness :
  Info.version (Examples.version_state (VNum (Int 9))) = Ok (VNum (Int 9)) ∧
  select Info.versionString (Examples.version_state (VNum (Int 9))) = Throw TypeError ∧
  select Info.commitString (Examples.version_state (VNum (Int 9))) = Throw TypeError.
Proof.
  assert (Hv : Info.version (Examples.version_state (VNum (Int 9))) = Ok (VNum (Int 9)))
    by evaluate.
  split; [exact Hv|].
  destruct (version_strings_throw_on_non_strings _ _ TypeError Hv) as [Hversion Hcommit].
  split; [by apply Hversion|by apply Hcommit].
Defined.

(** ** Capability flags, continued *)

Section More_capabilities.
Context `{Environment}.

Lemma capability_flag_cases state flag threshold v :
  (flag, threshold) ∈ capability_flags →
  Info.grpcProtoVersion state = Ok v →
  select flag state =
    if truthy v then VBool <$> semver_gte v threshold else Ok (VBool false).
Proof.
  intros Hin Hv. unfold capability_flags in Hin.
  repeat (apply elem_of_cons in Hin as [[= -> ->]|Hin]; [by apply flag_unfold|]).
  by apply elem_of_nil in Hin.
Qed.

(** X6.  A capability flag that returns returns a boolean, and it throws
    exactly when there is a version (a truthy value) on which [semver.gte]
    throws, passing that error on. *)
Theorem capability_flags_are_booleans state flag threshold v :
  (flag, threshold) ∈ capability_flags →
  Info.grpcProtoVersion state = Ok v →
  (∀ r, select flag state = Ok r → ∃ b, r = VBool b) ∧
  (∀ e, select flag state = Throw e ↔
          truthy v = true ∧ semver_gte v threshold = Throw e).
Proof.
  intros Hin Hv. rewrite (capability_flag_cases _ _ _ _ Hin Hv).
  destruct (truthy v).
  - destruct (semver_gte v threshold) as [b|e']; simpl; split.
    + intros r [= <-]. by exists b.
    + intros e. split; [done|]. by intros [_ ?].
    + done.
    + intros e. split; [by intros [= <-]|]. by intros [_ [= <-]].
  - split.
    + intros r [= <-]. by exists false.
    + intros e. split; [done|]. by intros [? _].
Qed.

(** X7.  The thresholds are ordered: wherever [semver.gte] says that what
    is at least [0.10.0-beta] is at least [0.7.1-beta], a node with MPP
    support (or with SendPaymentV2 support) has Router support. *)
Theorem mpp_support_implies_router_support state :
  (∀ v, semver_gte v "0.10.0-beta" = Ok true → semver_gte v "0.7.1-beta" = Ok true) →
  (select Info.hasMppSupport state = Ok (VBool true) →
   select Info.hasRouterSupport state = Ok (VBool true)) ∧
  (select Info.hasSendPaymentV2Support state = Ok (VBool true) →
   select Info.hasRouterSupport state = Ok (VBool true)).
Proof.
  intros Hordered.
  unfold Info.hasMppSupport, Info.hasSendPaymentV2Support, Info.hasRouterSupport.
  rewrite !(flag_unfold _ _ _ _ eq_refl).
  destruct (truthy (get state "info.data.grpcProtoVersion" VUndef)); [|done].
  rewrite !flag_true_iff. split; apply Hordered.
Qed.

End More_capabilities.

(** The reference comparison orders the two thresholds. *)
Lemma Semver_thresholds_ordered v :
  Semver.gte v "0.10.0-beta" = Ok true → Semver.gte v "0.7.1-beta" = Ok true.
Proof.
  unfold Semver.gte. destruct v as [| | | |s| |]; try done.
  replace (Semver.parse "0.10.0-beta") with
    (Some {| Semver.major := 0; Semver.minor := 10; Semver.patch := 0;
             Semver.prerelease := [Semver.Alphanumeric "beta"] |}) by evaluate.
  replace (Semver.parse "0.7.1-beta") with
    (Some {| Semver.major := 0; Semver.minor := 7; Semver.patch := 1;
             Semver.prerelease := [Semver.Alphanumeric "beta"] |}) by evaluate.
  destruct (Semver.parse s) as [[major minor patch prerelease]|]; [|done].
  unfold Semver.compare. cbn [Semver.major Semver.minor Semver.patch Semver.prerelease].
  destruct (N.compare_spec major 0) as [->| |]; [|lia|done].
  destruct (N.compare_spec minor 10) as [->| |Hminor]; [done|done|].
  destruct (N.compare_spec minor 7); [lia|lia|done].
Qed.

Lemma capability_flags_are_booleans_witness :
  (Info.hasMppSupport (H := reference_environment), "0.10.0-beta") ∈
    capability_flags (H := reference_environment) ∧
  Info.grpcProtoVersion (Examples.node_state "not a version") =
    Ok (VStr "not a version") ∧
  select (Info.hasMppSupport (H := reference_environment))
    (Examples.node_state "not a version") = Throw TypeError.
Proof.
  assert (Hin : (Info.hasMppSupport (H := reference_environment), "0.10.0-beta") ∈
                capability_flags (H := reference_environment)).
  { by apply (list_elem_of_lookup_2 _ 2). }
  assert (Hv : Info.grpcProtoVersion (Examples.node_state "not a version") =
               Ok (VStr "not a version")) by evaluate.
  split; [exact Hin|]. split; [exact Hv|].
  apply (proj2 (capability_flags_are_booleans (H := reference_environment)
                  _ _ _ _ Hin Hv)).
  split; evaluate.
Defined.

Lemma mpp_support_implies_router_support_witness :
  select (Info.hasMppSupport (H := reference_environment))
    (Examples.node_state "0.11.0-beta.rc1") = Ok (VBool true) ∧
  select (Info.hasRouterSupport (H := reference_environment))
    (Examples.node_state "0.11.0-beta.rc1") = Ok (VBool true).
Proof.
  assert (Hmpp : select (Info.hasMppSupport (H := reference_environment))
                   (Examples.node_state "0.11.0-beta.rc1") = Ok (VBool true))
    by evaluate.
  split; [exact Hmpp|].
  exact (proj1 (mpp_support_implies_router_support (H := reference_environment)
                  _ Semver_thresholds_ordered) Hmpp).
Defined.

(** ** Node pubkey and uris, continued *)

Lemma nodePubkey_cases state n pk :
  Info.nodeUris state = Ok n → Info.identityPubkey state = Ok pk →
  select Info.nodePubkey state =
    if truthy pk then Ok pk
    else if truthy n then
      match get_prop n "0" with
      | VStr uri => Ok (VStr (substring_before "@" uri))
      | _ => Throw TypeError
      end
    else Ok n.
Proof.
  intros Hn Hpk. unfold Info.nodePubkey.
  rewrite (select_2 _ _ _ _ _ n pk) by done. read_args.
  destruct (truthy pk); [done|]. destruct (truthy n) eqn:Htruthy; [|done].
  rewrite member_ok by (by destruct n). cbn [mbind result_bind].
  destruct (get_prop n "0"); try done. apply split_first.
Qed.

(** X8.  [nodePubkey] throws exactly when there is no identity pubkey, the
    uris are set (truthy) and their first element is not a string, as with
    an empty list; what it throws is a [TypeError]. *)
Theorem nodePubkey_throws_without_first_uri state n pk e :
  Info.nodeUris state = Ok n → Info.identityPubkey state = Ok pk →
  select Info.nodePubkey state = Throw e ↔
    e = TypeError ∧ truthy pk = false ∧ truthy n = true ∧
    is_string (get_prop n "0") = false.
Proof.
  intros Hn Hpk. rewrite (nodePubkey_cases _ _ _ Hn Hpk).
  destruct (truthy pk); [by split; [|intros (_ & ? & _)]|].
  destruct (truthy n); [|by split; [|intros (_ & _ & ? & _)]].
  destruct (get_prop n "0"); simpl;
    (split; [by intros [= <-]|by intros (-> & _ & _ & ?)]).
Qed.

Lemma nodePubkey_throws_without_first_uri_witness :
  Info.nodeUris Examples.no_uris_state = Ok (VArr []) ∧
  Info.identityPubkey Examples.no_uris_state = Ok VUndef ∧
  select Info.nodePubkey Examples.no_uris_state = Throw TypeError.
Proof.
  assert (Hn : Info.nodeUris Examples.no_uris_state = Ok (VArr [])) by evaluate.
  assert (Hpk : Info.identityPubkey Examples.no_uris_state = Ok VUndef) by evaluate.
  split; [exact Hn|]. split; [exact Hpk|].
  by apply (nodePubkey_throws_without_first_uri _ _ _ TypeError Hn Hpk).
Defined.

(** X9.  A pubkey that does not come from [identity_pubkey] never has an
    [@] in it: the host part of the uri is always cut off. *)
Theorem nodePubkey_from_uri_has_no_host state pk s :
  Info.identityPubkey state = Ok pk → truthy pk = false →
  select Info.nodePubkey state = Ok (VStr s) →
  contains_char "@" s = false.
Proof.
  intros Hpk Hfalsy. rewrite (nodePubkey_cases _ _ _ eq_refl Hpk), Hfalsy.
  destruct (truthy (get state "info.data.uris" VUndef)) eqn:Hn.
  - destruct (get_prop _ "0"); try done. intros [= <-]. apply cut_spec.
  - intros [= Hs]. rewrite Hs in Hn. simpl in Hn.
    destruct (String.eqb_spec s "") as [->|]; done.
Qed.

Lemma nodePubkey_from_uri_has_no_host_witness :
  Info.identityPubkey (Examples.node_state "0.9.0-beta") = Ok VUndef ∧
  select Info.nodePubkey (Examples.node_state "0.9.0-beta") = Ok (VStr "02abc") ∧
  contains_char "@" "02abc" = false.
Proof.
  assert (Hpk : Info.identityPubkey (Examples.node_state "0.9.0-beta") = Ok VUndef)
    by evaluate.
  assert (Hkey : select Info.nodePubkey (Examples.node_state "0.9.0-beta") =
                 Ok (VStr "02abc")) by evaluate.
  split; [exact Hpk|]. split; [exact Hkey|].
  exact (nodePubkey_from_uri_has_no_host _ _ _ Hpk eq_refl Hkey).
Defined.

(** X10.  [nodeUrisOrPubkey] computes [nodePubkey] first and throws whenever
    that throws, even if the uris are there to be returned.  Otherwise it
    returns the uris when they are set, the empty list included, and a list
    of the one pubkey when they are not; what it returns is always truthy. *)
Theorem nodeUrisOrPubkey_composes state uris :
  Info.nodeUris state = Ok uris →
  (∀ e, select Info.nodePubkey state = Throw e →
        select Info.nodeUrisOrPubkey state = Throw e) ∧
  (∀ pk, select Info.nodePubkey state = Ok pk →
         select Info.nodeUrisOrPubkey state =
           Ok (if truthy uris then uris else VArr [pk])) ∧
  (∀ r, select Info.nodeUrisOrPubkey state = Ok r → truthy r = true).
Proof.
  intros Huris.
  assert (Hthrow : ∀ e, select Info.nodePubkey state = Throw e →
                        select Info.nodeUrisOrPubkey state = Throw e).
  { intros e He. unfold Info.nodeUrisOrPubkey. rewrite select_createSelector.
    cbn [result_map]. change (select (Input Info.nodeUris) state) with (Info.nodeUris state).
    rewrite Huris. cbn [mbind result_bind]. by rewrite He. }
  assert (Hreturn : ∀ pk, select Info.nodePubkey state = Ok pk →
                          select Info.nodeUrisOrPubkey state =
                            Ok (if truthy uris then uris else VArr [pk])).
  { intros pk Hpk. unfold Info.nodeUrisOrPubkey.
    by rewrite (select_2 _ _ _ _ _ uris pk). }
  split; [done|]. split; [done|].
  intros r. destruct (select Info.nodePubkey state) as [pk|e] eqn:Hpk.
  - rewrite (Hreturn pk eq_refl). intros [= <-].
    by destruct (truthy uris) eqn:Htruthy.
  - by rewrite (Hthrow e eq_refl).
Qed.

Lemma nodeUrisOrPubkey_composes_witness :
  Info.nodeUris Examples.no_uris_state = Ok (VArr []) ∧
  select Info.nodePubkey Examples.no_uris_state = Throw TypeError ∧
  select Info.nodeUrisOrPubkey Examples.no_uris_state = Throw TypeError.
Proof.
  assert (Huris : Info.nodeUris Examples.no_uris_state = Ok (VArr [])) by evaluate.
  assert (Hkey : select Info.nodePubkey Examples.no_uris_state = Throw TypeError)
    by evaluate.
  split; [exact Huris|]. split; [exact Hkey|].
  exact (proj1 (nodeUrisOrPubkey_composes _ _ Huris) _ Hkey).
Defined.

(** ** Network info and chain name *)

Lemma get_two_levels object first second defaultValue :
  contains_char "." first = false →
  contains_char "." second = false →
  has_property object (first +:+ String "." second) = false →
  get object (first +:+ String "." second) defaultValue =
    match get_prop (get_prop object first) second with
    | VUndef => defaultValue
    | v => v
    end.
Proof.
  intros Hfirst Hsecond Hliteral. unfold get, castPath, isKey. rewrite Hliteral.
  rewrite contains_char_app, Hfirst. simpl contains_char.
  simpl negb. simpl orb. cbv iota. unfold stringToPath.
  rewrite split_app, split_without by done.
  rewrite baseGet_reads. simpl foldl.
  destruct (is_nullish object) eqn:Hobject.
  - by rewrite !(get_prop_nullish object), !(get_prop_nullish VUndef).
  - by destruct (get_prop (get_prop object first) second).
Qed.

Lemma plain_name_no_dot s : plain_name s = true → contains_char "." s = false.
Proof.
  unfold plain_name. intros Hplain%negb_true_iff.
  by apply orb_false_elim in Hplain as [[? _]%orb_false_elim _].
Qed.

(** Reading [object[first][second]] where both are properties of their own
    of the objects read. *)
Lemma get_own_two_levels (fields inner : gmap string val) first second v defaultValue :
  plain_name first = true → plain_name second = true →
  fields !! (first +:+ String "." second) = None →
  fields !! first = Some (VObj inner) →
  inner !! second = Some v →
  get (VObj fields) (first +:+ String "." second) defaultValue =
    match v with
    | VUndef => defaultValue
    | _ => v
    end.
Proof.
  intros Hfirst%plain_name_no_dot Hsecond%plain_name_no_dot Hliteral Hinner Hv.
  rewrite get_two_levels; try done.
  - simpl. rewrite Hinner. simpl. rewrite Hv. simpl. by destruct v.
  - simpl. rewrite Hliteral. apply bool_decide_eq_false. by intros [? ?].
Qed.

Section Network.
Context `{Environment}.

(** The result function of [networkInfo] on what its dependencies return. *)
Lemma networkInfo_cases state chain network networks config :
  Info.chainSelector state = Ok chain →
  Info.networkSelector state = Ok network →
  Info.networksSelector state = Ok networks →
  currentConfig state = Ok config →
  select Info.networkInfo state =
    let info := get networks (to_string chain +:+ "." +:+ to_string network) (VObj ∅) in
    explorerUrls ← member info "explorerUrls";
    blockExplorer ← member config "blockExplorer";
    explorerUrl ← member explorerUrls (to_string blockExplorer);
    Ok (VObj (<["explorerUrl" := explorerUrl]> (spread info))).
Proof.
  intros Hchain Hnetwork Hnetworks Hconfig. unfold Info.networkInfo.
  rewrite (select_params _ _ _ _ [chain; network; networks; config]); [done|].
  simpl. by rewrite Hchain, Hnetwork, Hnetworks, Hconfig.
Qed.

(** X11.  In the case the selector is written for (chain and network are
    names without dot or bracket, [networks[chain][network]] is an entry
    whose [explorerUrls] list the block explorer of the configuration)
    [networkInfo] returns the entry with one property added or replaced:
    [explorerUrl], the url listed for that explorer.  Every other property
    of the entry is kept. *)
Theorem networkInfo_extends_entry
    state chain network networks inner entry config explorerUrls blockExplorer url :
  Info.chainSelector state = Ok (VStr chain) →
  Info.networkSelector state = Ok (VStr network) →
  Info.networksSelector state = Ok (VObj networks) →
  currentConfig state = Ok (VObj config) →
  plain_name chain = true → plain_name network = true →
  networks !! (chain +:+ "." +:+ network) = None →
  networks !! chain = Some (VObj inner) →
  inner !! network = Some (VObj entry) →
  entry !! "explorerUrls" = Some (VObj explorerUrls) →
  config !! "blockExplorer" = Some (VStr blockExplorer) →
  explorerUrls !! blockExplorer = Some url →
  ∃ info,
    select Info.networkInfo state = Ok (VObj info) ∧
    info !! "explorerUrl" = Some url ∧
    ∀ key, key ≠ "explorerUrl" → info !! key = entry !! key.
Proof.
  intros Hchain Hnetwork Hnetworks Hconfig Hplain_chain Hplain_network
    Hliteral Hinner Hentry Hurls Hexplorer Hurl.
  rewrite (networkInfo_cases _ _ _ _ _ Hchain Hnetwork Hnetworks Hconfig). cbv zeta.
  change (to_string (VStr chain) +:+ "." +:+ to_string (VStr network))
    with (chain +:+ String "." network).
  rewrite (get_own_two_levels _ inner _ _ (VObj entry)) by done.
  unfold member. simpl is_nullish. cbn [mbind result_bind]. simpl get_prop.
  rewrite Hurls, Hexplorer. simpl. rewrite Hurl. simpl.
  eexists. split; [done|]. split.
  - by rewrite lookup_insert_eq.
  - intros key Hkey. by rewrite lookup_insert_ne.
Qed.


End Network.


(** ** Invoices, continued *)

Section More_invoices.
Context `{Environment}.

Lemma invoice_cases state decorated paymentRequest :
  select Invoice.invoices state = Ok (VArr decorated) →
  Invoice.invoiceSelector state = Ok paymentRequest →
  select Invoice.invoice state =
    find_first (λ item, itemRequest ← member item "paymentRequest";
                        Ok (strict_eq itemRequest paymentRequest)) decorated.
Proof.
  intros Hinvoices Hselected. unfold Invoice.invoice.
  by rewrite (select_2 _ _ _ _ _ (VArr decorated) paymentRequest).
Qed.

Lemma find_first_sound paymentRequest decorated item :
  find_first (λ item, itemRequest ← member item "paymentRequest";
                      Ok (strict_eq itemRequest paymentRequest)) decorated = Ok item →
  (∃ before after,
     decorated = (before ++ item :: after)%list ∧
     Forall (passed_over paymentRequest) before ∧
     is_nullish item = false ∧
     strict_eq (get_prop item "paymentRequest") paymentRequest = true) ∨
  (item = VUndef ∧ Forall (passed_over paymentRequest) decorated).
Proof.
  induction decorated as [|d decorated IH]; simpl.
  - intros [= <-]. right. by split.
  - unfold member. destruct (is_nullish d) eqn:Hd; [done|]. simpl.
    destruct (strict_eq (get_prop d "paymentRequest") paymentRequest) eqn:Hmatch.
    + intros [= <-]. left. by exists [], decorated.
    + intros Hfound.
      destruct (IH Hfound) as [(before & after & -> & Hbefore & Hitem & Hhit)|[-> Hall]].
      * left. exists (d :: before), after. repeat split; try done.
        by constructor.
      * right. split; [done|]. by constructor.
Qed.

(** X14.  What [invoice] returns is either a decorated invoice that carries
    the selected payment request, the first in the list to do so, or
    [undefined] when every decorated invoice carries another one: it never
    returns an invoice with a different payment request. *)
Theorem invoice_returns_only_the_selected state decorated paymentRequest item :
  select Invoice.invoices state = Ok (VArr decorated) →
  Invoice.invoiceSelector state = Ok paymentRequest →
  select Invoice.invoice state = Ok item →
  (∃ before after,
     decorated = (before ++ item :: after)%list ∧
     Forall (passed_over paymentRequest) before ∧
     is_nullish item = false ∧
     strict_eq (get_prop item "paymentRequest") paymentRequest = true) ∨
  (item = VUndef ∧ Forall (passed_over paymentRequest) decorated).
Proof.
  intros Hinvoices Hselected.
  rewrite (invoice_cases _ _ _ Hinvoices Hselected). apply find_first_sound.
Qed.

(** X15.  When [state.invoice.invoices] is not an array (a missing list,
    say) both selectors throw a [TypeError]; when it is the empty array
    [invoices] returns the empty array and [invoice] returns [undefined],
    and [decorateInvoice] is not consulted. *)
Theorem invoices_without_a_list state items :
  Invoice.invoicesSelector state = Ok items →
  (is_array items = false →
   select Invoice.invoices state = Throw TypeError ∧
   select Invoice.invoice state = Throw TypeError) ∧
  (items = VArr [] →
   select Invoice.invoices state = Ok (VArr []) ∧
   select Invoice.invoice state = Ok VUndef).
Proof.
  intros Hitems.
  assert (Hinvoices : select Invoice.invoices state = method_map items decorateInvoice).
  { unfold Invoice.invoices. by rewrite (select_1 _ _ _ _ items). }
  assert (Hselected : ∃ paymentRequest, Invoice.invoiceSelector state = Ok paymentRequest).
  { revert Hitems. unfold Invoice.invoicesSelector, Invoice.invoiceSelector.
    destruct (member state "invoice") as [slice|e]; [|done]. simpl.
    unfold member. destruct (is_nullish slice); [done|]. by eexists. }
  destruct Hselected as [paymentRequest Hselected]. split.
  - intros Harray.
    assert (Hthrow : select Invoice.invoices state = Throw TypeError).
    { rewrite Hinvoices. by destruct items. }
    split; [done|]. unfold Invoice.invoice. rewrite select_createSelector.
    cbn [result_map]. by rewrite Hthrow.
  - intros ->.
    assert (Hempty : select Invoice.invoices state = Ok (VArr [])) by by rewrite Hinvoices.
    split; [done|]. by rewrite (invoice_cases _ _ _ Hempty Hselected).
Qed.

Lemma result_map_first_throw {A B} (f : A → result B) before x after e :
  Forall (λ y, ∃ z, f y = Ok z) before → f x = Throw e →
  result_map f (before ++ x :: after)%list = Throw e.
Proof.
  intros Hbefore Hx. induction Hbefore as [|y before [z Hy] _ IH]; simpl.
  - by rewrite Hx.
  - by rewrite Hy, IH.
Qed.

(** X16.  [decorateInvoice] failing on an invoice makes both selectors fail:
    they throw what [decorateInvoice] throws on the first invoice it cannot
    decorate, whichever payment request is selected. *)
Theorem invoices_pass_on_decoration_errors state before item after e :
  Invoice.invoicesSelector state = Ok (VArr (before ++ item :: after)%list) →
  Forall (λ earlier, ∃ d, decorateInvoice earlier = Ok d) before →
  decorateInvoice item = Throw e →
  select Invoice.invoices state = Throw e ∧
  select Invoice.invoice state = Throw e.
Proof.
  intros Hitems Hbefore Hitem.
  assert (Hthrow : select Invoice.invoices state = Throw e).
  { unfold Invoice.invoices.
    rewrite (select_1 _ _ _ _ (VArr (before ++ item :: after)%list)) by done. read_args.
    simpl. by rewrite (result_map_first_throw _ _ _ _ e Hbefore Hitem). }
  split; [done|]. unfold Invoice.invoice. rewrite select_createSelector.
  cbn [result_map]. by rewrite Hthrow.
Qed.

End More_invoices.

(** ** The amount and the status shown by [RequestSummary], continued *)

Section More_amount.
Context `{Environment}.

(** X17.  Without a payment request (a keysend payment) the amount shown is
    [invoice.finalAmount] when that is truthy and [0] otherwise;
    [decodePayReq] is not called. *)
Theorem RequestSummary_amount_without_request invoice payReq :
  truthy payReq = false → invoice ≠ VNull →
  RequestSummary.satoshis invoice payReq =
    Ok (js_or (get_prop (StatusRow.default_invoice invoice) "finalAmount") (VNum (Int 0))).
Proof.
  intros Hkeysend Hinvoice. unfold RequestSummary.satoshis, RequestSummary.decodedInvoice.
  rewrite Hkeysend. cbn [mbind result_bind].
  rewrite !(member_ok (VObj ∅)) by done. cbn [mbind result_bind].
  fold (StatusRow.default_invoice invoice).
  rewrite member_ok by (destruct invoice; done || congruence).
  cbn [mbind result_bind]. unfold js_or.
  replace (get_prop (VObj ∅) "satoshis") with VUndef by done.
  destruct (truthy (get_prop (StatusRow.default_invoice invoice) "finalAmount"))
    eqn:Hfinal; simpl; by rewrite ?Hfinal.
Qed.

(** X18.  The amount shown is always something to show: a truthy value or
    the number [0], never [undefined], [null], [NaN], [false] or an empty
    string. *)
Theorem RequestSummary_amount_is_shown invoice payReq amount :
  RequestSummary.satoshis invoice payReq = Ok amount →
  truthy amount = true ∨ amount = VNum (Int 0).
Proof.
  unfold RequestSummary.satoshis.
  destruct (RequestSummary.decodedInvoice payReq) as [decoded|e]; [|done].
  cbn [mbind result_bind].
  destruct (member decoded "timeExpireDate"); [|done]. cbn [mbind result_bind].
  destruct (member decoded "satoshis") as [invoiceAmount|]; [|done].
  cbn [mbind result_bind].
  destruct (member _ "finalAmount") as [finalAmount|]; [|done].
  cbn [mbind result_bind]. intros [= <-]. unfold js_or.
  destruct (truthy finalAmount) eqn:Hfinal; [rewrite Hfinal; by left|].
  destruct (truthy invoiceAmount) eqn:Hdecoded; rewrite ?Hdecoded; [by left|by right].
Qed.


End More_amount.

(** X20.  The status row is of one piece: it says paid exactly when the
    [invoice] prop is settled, and then in [superGreen] whether or not the
    request has expired; an invoice that is not settled has its countdown and
    its text in the same colour, [superRed] once expired and [primaryAccent]
    before, never [superGreen]. *)
Theorem statusRow_colours invoice isExpired row :
  StatusRow.statusRow invoice isExpired = Ok row →
  let settled := truthy (get_prop (StatusRow.default_invoice invoice) "isSettled") in
  (settled = true → row = StatusRow.Paid "superGreen") ∧
  (settled = false →
   row = (if isExpired then StatusRow.NotPaid "superRed" "superRed"
          else StatusRow.NotPaid "primaryAccent" "primaryAccent")).
Proof.
  unfold StatusRow.statusRow, StatusRow.getStatusColor, member.
  destruct (is_nullish (StatusRow.default_invoice invoice)); [done|].
  cbn [mbind result_bind].
  destruct (truthy (get_prop (StatusRow.default_invoice invoice) "isSettled"));
    cbn [mbind result_bind]; intros [= <-]; split; try done.
  intros _. by destruct isExpired.
Qed.

(** ** The container of [PaySummaryLightning] *)

Section Container_props.
Context `{Environment}.
Variable cryptoUnitName : val → result val.
Variable nodes : val → result val.

(** X21.  Where the imported selectors return, [mapStateToProps] throws
    exactly when the state has no [pay] slice or the settings configuration
    has no [payments] (a [TypeError]); what it returns is an object with the
    four props [cryptoUnitName], [isQueryingRoutes], [nodes] and [feeLimit]
    and no other, [feeLimit] being [payments.feeLimit] of the configuration
    and [isQueryingRoutes] that of the [pay] slice. *)
Theorem mapStateToProps_props state unitName nodeList config :
  cryptoUnitName state = Ok unitName →
  nodes state = Ok nodeList →
  currentConfig state = Ok config →
  let mapStateToProps :=
    PaySummaryLightningContainer.mapStateToProps cryptoUnitName nodes in
  (∀ e, mapStateToProps state = Throw e ↔
          e = TypeError ∧
          (is_nullish state = true ∨ is_nullish (get_prop state "pay") = true ∨
           is_nullish config = true ∨ is_nullish (get_prop config "payments") = true)) ∧
  (∀ props, mapStateToProps state = Ok props →
     ∃ fields,
       props = VObj fields ∧
       dom fields = {["cryptoUnitName"; "isQueryingRoutes"; "nodes"; "feeLimit"]} ∧
       fields !! "cryptoUnitName" = Some unitName ∧
       fields !! "isQueryingRoutes" =
         Some (get_prop (get_prop state "pay") "isQueryingRoutes") ∧
       fields !! "nodes" = Some nodeList ∧
       fields !! "feeLimit" =
         Some (get_prop (get_prop config "payments") "feeLimit")).
Proof.
  intros HunitName Hnodes Hconfig. cbv zeta.
  unfold PaySummaryLightningContainer.mapStateToProps, member.
  rewrite HunitName. cbn [mbind result_bind].
  destruct (is_nullish state); cbn [mbind result_bind];
    [|destruct (is_nullish (get_prop state "pay")); cbn [mbind result_bind];
      [|rewrite Hnodes, Hconfig; cbn [mbind result_bind];
        destruct (is_nullish config); cbn [mbind result_bind];
        [|destruct (is_nullish (get_prop config "payments"));
          cbn [mbind result_bind]]]].
  1-4: split; [intros e; split; [intros [= <-]; auto 6|by intros [-> _]]|done].
  split.
  - intros e. split; [done|]. by intros [_ [?|[?|[?|?]]]].
  - intros props [= <-]. eexists. split; [done|].
    split; [|by rewrite ?lookup_insert_eq, ?lookup_insert_ne by done].
    rewrite !dom_insert_L, dom_empty_L. set_solver.
Qed.

End Container_props.

(** ** The further properties at work on the example states *)

Lemma networkInfo_extends_entry_witness :
  Info.chainSelector (Examples.node_state "0.9.0-beta") = Ok (VStr "bitcoin") ∧
  Info.networkSelector (Examples.node_state "0.9.0-beta") = Ok (VStr "mainnet") ∧
  plain_name "bitcoin" = true ∧ plain_name "mainnet" = true ∧
  ∃ info,
    select (Info.networkInfo (H := reference_environment))
      (Examples.node_state "0.9.0-beta") = Ok (VObj info) ∧
    info !! "explorerUrl" = Some (VStr "https://blockstream.info") ∧
    ∀ key, key ≠ "explorerUrl" → info !! key = MoreExamples.mainnet_entry !! key.
Proof.
  split; [evaluate|]. split; [evaluate|]. split; [evaluate|]. split; [evaluate|].
  apply (networkInfo_extends_entry (H := reference_environment)
           _ "bitcoin" "mainnet"
           (list_to_map [("bitcoin", object [("mainnet", VObj MoreExamples.mainnet_entry)])])
           (list_to_map [("mainnet", VObj MoreExamples.mainnet_entry)])
           MoreExamples.mainnet_entry
           {[ "blockExplorer" := VStr "blockstream" ]}
           (list_to_map [("blockstream", VStr "https://blockstream.info")])
           "blockstream");
    evaluate.
Defined.



Lemma invoice_returns_only_the_selected_witness :
  select (Invoice.invoices (H := reference_environment)) Examples.invoice_state =
    Ok (VArr [Examples.decorated Examples.first_invoice;
              Examples.decorated Examples.second_invoice]) ∧
  Invoice.invoiceSelector Examples.invoice_state = Ok (VStr "lnbc2") ∧
  select (Invoice.invoice (H := reference_environment)) Examples.invoice_state =
    Ok (Examples.decorated Examples.second_invoice) ∧
  strict_eq (H := reference_environment)
    (get_prop (Examples.decorated Examples.second_invoice) "paymentRequest")
    (VStr "lnbc2") = true.
Proof.
  assert (Hinvoices :
    select (Invoice.invoices (H := reference_environment)) Examples.invoice_state =
    Ok (VArr [Examples.decorated Examples.first_invoice;
              Examples.decorated Examples.second_invoice])) by evaluate.
  assert (Hselected : Invoice.invoiceSelector Examples.invoice_state = Ok (VStr "lnbc2"))
    by evaluate.
  assert (Hinvoice :
    select (Invoice.invoice (H := reference_environment)) Examples.invoice_state =
    Ok (Examples.decorated Examples.second_invoice)) by evaluate.
  split; [exact Hinvoices|]. split; [exact Hselected|]. split; [exact Hinvoice|].
  destruct (invoice_returns_only_the_selected (H := reference_environment)
              _ _ _ _ Hinvoices Hselected Hinvoice)
    as [(before & after & _ & _ & _ & Hmatch)|[Hundefined _]];
    [exact Hmatch|discriminate Hundefined].
Defined.

Lemma invoices_without_a_list_witness :
  Invoice.invoicesSelector MoreExamples.no_invoices_state = Ok VUndef ∧
  select (Invoice.invoices (H := reference_environment))
    MoreExamples.no_invoices_state = Throw TypeError ∧
  select (Invoice.invoice (H := reference_environment))
    MoreExamples.no_invoices_state = Throw TypeError.
Proof.
  assert (Hitems : Invoice.invoicesSelector MoreExamples.no_invoices_state = Ok VUndef)
    by evaluate.
  split; [exact Hitems|].
  exact (proj1 (invoices_without_a_list (H := reference_environment) _ _ Hitems)
           eq_refl).
Defined.

Lemma invoices_pass_on_decoration_errors_witness :
  Invoice.invoicesSelector MoreExamples.broken_invoices_state =
    Ok (VArr ([Examples.first_invoice] ++ VNull :: [])%list) ∧
  decorateInvoice (Environment := reference_environment) VNull = Throw TypeError ∧
  select (Invoice.invoices (H := reference_environment))
    MoreExamples.broken_invoices_state = Throw TypeError ∧
  select (Invoice.invoice (H := reference_environment))
    MoreExamples.broken_invoices_state = Throw TypeError.
Proof.
  assert (Hitems : Invoice.invoicesSelector MoreExamples.broken_invoices_state =
                   Ok (VArr ([Examples.first_invoice] ++ VNull :: [])%list))
    by evaluate.
  split; [exact Hitems|]. split; [reflexivity|].
  apply (invoices_pass_on_decoration_errors (H := reference_environment)
           _ _ _ _ _ Hitems); [|reflexivity].
  constructor; [|constructor]. eexists. reflexivity.
Defined.

Lemma RequestSummary_amount_without_request_witness :
  truthy VUndef = false ∧
  RequestSummary.satoshis (H := reference_environment)
    (object [("finalAmount", VNum (Int 250))]) VUndef = Ok (VNum (Int 250)) ∧
  RequestSummary.satoshis (H := reference_environment) VUndef VUndef =
    Ok (VNum (Int 0)).
Proof.
  split; [reflexivity|]. split.
  - rewrite (RequestSummary_amount_without_request (H := reference_environment));
      [evaluate|reflexivity|discriminate].
  - rewrite (RequestSummary_amount_without_request (H := reference_environment));
      [evaluate|reflexivity|discriminate].
Defined.

Lemma RequestSummary_amount_is_shown_witness :
  RequestSummary.satoshis (H := reference_environment)
    (object [("finalAmount", VNum (Int 0))]) (VStr "lnbc2") = Ok (VNum (Int 1000)) ∧
  (truthy (VNum (Int 1000)) = true ∨ VNum (Int 1000) = VNum (Int 0)).
Proof.
  assert (Hamount : RequestSummary.satoshis (H := reference_environment)
            (object [("finalAmount", VNum (Int 0))]) (VStr "lnbc2") =
            Ok (VNum (Int 1000))) by evaluate.
  split; [exact Hamount|].
  exact (RequestSummary_amount_is_shown (H := reference_environment) _ _ _ Hamount).
Defined.


Lemma statusRow_colours_witness :
  StatusRow.statusRow VUndef true = Ok (StatusRow.NotPaid "superRed" "superRed") ∧
  (truthy (get_prop (StatusRow.default_invoice VUndef) "isSettled") = false →
   StatusRow.NotPaid "superRed" "superRed" =
     (if true then StatusRow.NotPaid "superRed" "superRed"
      else StatusRow.NotPaid "primaryAccent" "primaryAccent")).
Proof.
  assert (Hrow : StatusRow.statusRow VUndef true =
                 Ok (StatusRow.NotPaid "superRed" "superRed")) by evaluate.
  split; [exact Hrow|].
  exact (proj2 (statusRow_colours _ _ _ Hrow)).
Defined.

Lemma mapStateToProps_props_witness :
  currentConfig (Environment := reference_environment) MoreExamples.pay_state =
    Ok MoreExamples.reference_config ∧
  PaySummaryLightningContainer.mapStateToProps (H := reference_environment)
    MoreExamples.cryptoUnitName MoreExamples.nodes MoreExamples.pay_state =
    Throw TypeError.
Proof.
  split; [reflexivity|].
  apply (proj1 (mapStateToProps_props (H := reference_environment)
                  MoreExamples.cryptoUnitName MoreExamples.nodes
                  MoreExamples.pay_state (VStr "sats") (VArr [])
                  MoreExamples.reference_config eq_refl eq_refl eq_refl)).
  split; [reflexivity|]. right. right. right. evaluate.
Defined.
